(** * Deephaven theming spike: colour conversion, swatches and HSL ranges

    A shallow embedding of [src/util.js], of its earlier revision
    ([src/unnamed/part_000]) and of the inline script [src/iframe.js],
    together with the properties the specification states about them.

    Conventions of the embedding.

    - Strings are Rocq [string]s, that is sequences of 8-bit characters.
      The embedding covers ASCII text: CSS property names, colour literals.
    - Numbers.  A JavaScript number is an IEEE-754 binary64 value.  Where the
      code computes with fractions ([rgbToHsl], [parseRgba], [rgbaToHex8],
      [hexToRgb]) the embedding uses Rocq's primitive binary64 floats, whose
      operations round exactly as JavaScript's do; so does the hue
      arithmetic of [generateHSLRanges].  The shade weight of the swatch
      builders, a string of digits compared with 700, is compared as the
      integer it denotes.
    - [undefined] and [null] are [None]; a thrown exception is a value of
      [completion].
    - The style engine of the browser (the computed value of a custom
      property, the computed background of an element) is a parameter,
      [Dom.ComputedStyle]; [console.log] is not modelled. *)

From Stdlib Require Import ZArith List Bool Ascii String Lia Floats DecimalString.
Import ListNotations.

Local Open Scope list_scope.
Local Open Scope string_scope.

(** ** The JavaScript runtime used by the code *)

Module Js.

(** *** Characters and strings *)

Definition code (c : ascii) : N := N_of_ascii c.

Definition is_digit (c : ascii) : bool :=
  (48 <=? code c)%N && (code c <=? 57)%N.

(** [LineTerminator] of ECMA-262 (the characters [.] does not match). *)
Definition is_line_terminator (c : ascii) : bool :=
  (code c =? 10)%N || (code c =? 13)%N.

(** [WhiteSpace] and [LineTerminator]: what [trim] and numeric conversion skip. *)
Definition is_whitespace (c : ascii) : bool :=
  ((9 <=? code c)%N && (code c <=? 13)%N) || (code c =? 32)%N.

Definition is_lower (c : ascii) : bool :=
  (97 <=? code c)%N && (code c <=? 122)%N.

Definition is_upper (c : ascii) : bool :=
  (65 <=? code c)%N && (code c <=? 90)%N.

(** Value of a digit in radix up to 36, as [parseInt] and [0x] literals read it. *)
Definition digit_value (c : ascii) : option Z :=
  if is_digit c then Some (Z.of_N (code c) - 48)%Z
  else if is_lower c then Some (Z.of_N (code c) - 87)%Z
  else if is_upper c then Some (Z.of_N (code c) - 55)%Z
  else None.

Definition radix_digit (radix : Z) (c : ascii) : option Z :=
  match digit_value c with
  | Some v => if (v <? radix)%Z then Some v else None
  | None => None
  end.

Definition toUpperCase_char (c : ascii) : ascii :=
  if is_lower c then ascii_of_N (code c - 32) else c.

Definition toLowerCase_char (c : ascii) : ascii :=
  if is_upper c then ascii_of_N (code c + 32) else c.

Fixpoint map_string (f : ascii -> ascii) (s : string) : string :=
  match s with
  | EmptyString => EmptyString
  | String c r => String (f c) (map_string f r)
  end.

Definition toLowerCase : string -> string := map_string toLowerCase_char.

Fixpoint forall_string (p : ascii -> bool) (s : string) : bool :=
  match s with
  | EmptyString => true
  | String c r => p c && forall_string p r
  end.

(** [s.startsWith(p)] *)
Definition startsWith (s p : string) : bool := String.prefix p s.

(** [s.endsWith(p)] *)
Definition endsWith (s p : string) : bool :=
  let n := String.length s in
  let m := String.length p in
  (m <=? n)%nat && String.eqb (String.substring (n - m) m s) p.

(** [s.substring(a, b)]: both indices are clamped to the length and swapped
    when out of order. *)
Definition substring (s : string) (a b : nat) : string :=
  String.substring (Nat.min a b) (Nat.max a b - Nat.min a b) s.

(** [s.slice(0, s.length - n)], used for stripping a matched suffix. *)
Definition dropEnd (s : string) (n : nat) : string :=
  String.substring 0 (String.length s - n) s.

Fixpoint repeat_char (c : ascii) (n : nat) : string :=
  match n with
  | O => EmptyString
  | S k => String c (repeat_char c k)
  end.

(** [s.padStart(n, "0")] *)
Definition padStart0 (s : string) (n : nat) : string :=
  repeat_char "0" (n - String.length s) ++ s.

Fixpoint skip_while (p : ascii -> bool) (s : string) : string :=
  match s with
  | EmptyString => EmptyString
  | String c r => if p c then skip_while p r else s
  end.

Fixpoint take_while (p : ascii -> bool) (s : string) : string :=
  match s with
  | EmptyString => EmptyString
  | String c r => if p c then String c (take_while p r) else EmptyString
  end.

Fixpoint rev_string_onto (s acc : string) : string :=
  match s with
  | EmptyString => acc
  | String c r => rev_string_onto r (String c acc)
  end.

Definition rev_string (s : string) : string := rev_string_onto s EmptyString.

Definition trimStart (s : string) : string := skip_while is_whitespace s.

Definition trim (s : string) : string :=
  rev_string (skip_while is_whitespace (rev_string (trimStart s))).

(** The double quote character, for HTML attribute values. *)
Definition dquote : string := String (ascii_of_N 34) EmptyString.

(** *** Integers in positional notation *)

(** Decimal digits of a non-negative integer. *)
Definition decimal (z : Z) : string :=
  NilZero.string_of_uint (N.to_uint (Z.to_N z)).

Definition digit_char (v : Z) : ascii :=
  if (v <? 10)%Z then ascii_of_N (Z.to_N (v + 48)) else ascii_of_N (Z.to_N (v + 87)).

(** Digits of a positive number in a radix, least significant first; the
    recursion follows the binary representation, which bounds the number of
    digits. *)
Fixpoint digits_fuel (fuel : nat) (radix z : Z) (acc : string) : string :=
  match fuel with
  | O => acc
  | S k =>
      if (z <? radix)%Z then String (digit_char z) acc
      else digits_fuel k radix (z / radix)%Z (String (digit_char (z mod radix)%Z) acc)
  end.

Definition in_radix (radix z : Z) : string :=
  digits_fuel (S (Z.to_nat (Z.log2 z))) radix z EmptyString.

(** Value of a string of digits of a radix (no check: callers test the digits). *)
Fixpoint digits_value_from (radix : Z) (s : string) (acc : Z) : Z :=
  match s with
  | EmptyString => acc
  | String c r =>
      digits_value_from radix r
        (acc * radix + match digit_value c with Some v => v | None => 0 end)%Z
  end.

Definition digits_value (radix : Z) (s : string) : Z := digits_value_from radix s 0%Z.

(** *** Binary64 numbers *)

Definition float_of_nonneg (z : Z) : float := PrimFloat.of_uint63 (Uint63.of_Z z).

(** The binary64 value nearest to [n / d] (ties to even), for [0 <= n], [0 < d]:
    the rounding ECMA-262 applies when it turns a real into a Number. *)
Definition float_of_ratio (n d : Z) : float :=
  if (n =? 0)%Z then PrimFloat.zero
  else
    let l := (Z.log2 n - Z.log2 d)%Z in
    let ge := if (0 <=? l)%Z then (d * 2 ^ l <=? n)%Z else (d <=? n * 2 ^ (- l))%Z in
    let fl := if ge then l else (l - 1)%Z in
    let e := Z.max (fl - 52) (-1074) in
    let num := if (0 <=? e)%Z then n else (n * 2 ^ (- e))%Z in
    let den := if (0 <=? e)%Z then (d * 2 ^ e)%Z else d in
    let q := (num / den)%Z in
    let r := (num mod den)%Z in
    let m := match (2 * r ?= den)%Z with
             | Lt => q
             | Gt => (q + 1)%Z
             | Eq => if Z.even q then q else (q + 1)%Z
             end in
    if (1024 <? Z.log2 m + e + 1)%Z then PrimFloat.infinity
    else Z.ldexp (float_of_nonneg m) e.

Definition float_of_signed (neg : bool) (n d : Z) : float :=
  if neg then (- float_of_ratio n d)%float else float_of_ratio n d.

(** [Math.round]: the integer nearest to [x], ties upwards; NaN, the
    infinities and integers are returned unchanged, and a negative argument
    that rounds to zero gives -0. *)
Definition Math_round (x : float) : float :=
  match Prim2SF x with
  | S754_finite s m e =>
      if (0 <=? e)%Z then x
      else
        let n := if s then Z.neg m else Z.pos m in
        let d := (2 ^ (- e))%Z in
        let r := ((2 * n + d) / (2 * d))%Z in
        if (r =? 0)%Z then (if s then PrimFloat.neg_zero else PrimFloat.zero)
        else if (r <? 0)%Z then (- float_of_nonneg (- r))%float
        else float_of_nonneg r
  | _ => x
  end.

(** [Math.min] and [Math.max] of two numbers: NaN if either is NaN, and -0
    is smaller than +0. *)
Definition Math_min2 (x y : float) : float :=
  if PrimFloat.is_nan x || PrimFloat.is_nan y then PrimFloat.nan
  else if (x <? y)%float then x
  else if (y <? x)%float then y
  else if PrimFloat.get_sign x then x else y.

Definition Math_max2 (x y : float) : float :=
  if PrimFloat.is_nan x || PrimFloat.is_nan y then PrimFloat.nan
  else if (x <? y)%float then y
  else if (y <? x)%float then x
  else if PrimFloat.get_sign x then y else x.

(** [Math.min(a, b, c)] and [Math.max(a, b, c)] fold from +Infinity and -Infinity. *)
Definition Math_min (a b c : float) : float :=
  Math_min2 (Math_min2 (Math_min2 PrimFloat.infinity a) b) c.

Definition Math_max (a b c : float) : float :=
  Math_max2 (Math_max2 (Math_max2 PrimFloat.neg_infinity a) b) c.

(** *** [Number::toString] (ECMA-262 6.1.6.1.20), radix 10

    For a positive finite [x = m * 2^e] the digits are those of the integer
    [s] with the fewest digits [k] such that [s * 10^(n-k)] rounds to [x];
    among several, the one nearest to [x], and the even one on a tie. *)

(** Compare [s * 10^p] with [y * 2^t]. *)
Definition cmp_scaled (s p y t : Z) : comparison :=
  (s * 10 ^ Z.max p 0 * 2 ^ Z.max (- t) 0 ?= y * 10 ^ Z.max (- p) 0 * 2 ^ Z.max t 0)%Z.

(** The least [n] from [n0] on with [y * 2^t < 10^n]. *)
Fixpoint decimal_exponent (fuel : nat) (y t n0 : Z) : Z :=
  match fuel with
  | O => n0
  | S k =>
      match cmp_scaled 1 n0 y t with
      | Gt => n0
      | _ => decimal_exponent k y t (n0 + 1)%Z
      end
  end.

(** The values that round to [m * 2^e] lie between [lo * 2^(e-2)] and
    [hi * 2^(e-2)], bounds included exactly when [m] is even. *)
Definition rounds_to (m e s p : Z) : bool :=
  let t := (e - 2)%Z in
  let lo := if (m =? 2 ^ 52)%Z && (-1074 <? e)%Z then (4 * m - 1)%Z else (4 * m - 2)%Z in
  let hi := (4 * m + 2)%Z in
  match cmp_scaled s p lo t, cmp_scaled s p hi t with
  | Gt, Lt => true
  | Eq, Lt => Z.even m
  | Gt, Eq => Z.even m
  | _, _ => false
  end.

(** The candidate with [k] digits, if one rounds to [m * 2^e]: the pair [(n, s)]. *)
Definition shortest_with (m e n0 k : Z) : option (Z * Z) :=
  let p := (n0 - k)%Z in
  let s_lo := ((m * 2 ^ Z.max e 0 * 10 ^ Z.max (- p) 0) / (2 ^ Z.max (- e) 0 * 10 ^ Z.max p 0))%Z in
  let low := (n0, s_lo) in
  let high := if (s_lo + 1 =? 10 ^ k)%Z then ((n0 + 1)%Z, (10 ^ (k - 1))%Z) else (n0, (s_lo + 1)%Z) in
  let ok c := rounds_to m e (snd c) (fst c - k) in
  match ok low, ok high with
  | true, false => Some low
  | false, true => Some high
  | false, false => None
  | true, true =>
      (* both round to x: the nearer one, i.e. compare their midpoint with x *)
      match cmp_scaled (2 * s_lo + 1) p (2 * m) e with
      | Gt => Some low
      | Lt => Some high
      | Eq => if Z.even s_lo then Some low else Some high
      end
  end.

Fixpoint shortest_from (fuel : nat) (m e n0 k : Z) : Z * Z * Z :=
  match shortest_with m e n0 k with
  | Some (n, s) => (n, k, s)
  | None =>
      match fuel with
      | O => (n0, k, 0%Z)
      | S f => shortest_from f m e n0 (k + 1)%Z
      end
  end.

(** The triple [(n, k, s)] of the algorithm; 17 digits always suffice. *)
Definition shortest_digits (m e : Z) : Z * Z * Z :=
  let est := (((Z.log2 m + e) * 30103) / 100000)%Z in
  let n0 := decimal_exponent 6 m e (est - 1)%Z in
  shortest_from 17 m e n0 1%Z.

Definition format_digits (n k s : Z) : string :=
  let d := decimal s in
  if (k <=? n)%Z && (n <=? 21)%Z then d ++ repeat_char "0" (Z.to_nat (n - k))
  else if (0 <? n)%Z && (n <=? 21)%Z then
    String.substring 0 (Z.to_nat n) d ++ "." ++ String.substring (Z.to_nat n) (Z.to_nat (k - n)) d
  else if (-6 <? n)%Z && (n <=? 0)%Z then "0." ++ repeat_char "0" (Z.to_nat (- n)) ++ d
  else
    let ex := (n - 1)%Z in
    let sign := if (ex <? 0)%Z then "-" else "+" in
    if (k =? 1)%Z then d ++ "e" ++ sign ++ decimal (Z.abs ex)
    else String.substring 0 1 d ++ "." ++ String.substring 1 (Z.to_nat (k - 1)) d
         ++ "e" ++ sign ++ decimal (Z.abs ex).

(** [String(x)], [x.toString()] and the interpolation of a number in a
    template literal. *)
Definition Number_toString (x : float) : string :=
  match Prim2SF x with
  | S754_nan => "NaN"
  | S754_zero _ => "0"
  | S754_infinity s => if s then "-Infinity" else "Infinity"
  | S754_finite sg m e =>
      let '(n, k, s) := shortest_digits (Z.pos m) e in
      (if sg then "-" else "") ++ format_digits n k s
  end.

(** [x.toString(16)].  ECMA-262 fixes the digits of an integer; for a number
    with a fractional part the digits are implementation-approximated, and the
    embedding gives no result ([None]). *)
Definition Number_toString16 (x : float) : option string :=
  match Prim2SF x with
  | S754_nan => Some "NaN"
  | S754_zero _ => Some "0"
  | S754_infinity s => Some (if s then "-Infinity" else "Infinity")
  | S754_finite sg m e =>
      if (0 <=? e)%Z || (Z.pos m mod 2 ^ (- e) =? 0)%Z then
        let v := if (0 <=? e)%Z then (Z.pos m * 2 ^ e)%Z else (Z.pos m / 2 ^ (- e))%Z in
        Some ((if sg then "-" else "") ++ in_radix 16 v)
      else None
  end.

(** *** [StringToNumber] (ECMA-262 7.1.4.1.1): [Number(s)] for a string *)

(** [digits] [. digits] [e [+-] digits], with a digit before or after the
    point: the value [mant * 10^ex], or [None] when [s] is not of that form. *)
Definition parse_decimal (s : string) : option (Z * Z) :=
  let ip := take_while is_digit s in
  let r1 := skip_while is_digit s in
  let '(fp, r2) :=
    match r1 with
    | String "." r => (take_while is_digit r, skip_while is_digit r)
    | _ => (EmptyString, r1)
    end in
  if (String.length ip + String.length fp =? 0)%nat then None
  else
    let mant := digits_value 10 (ip ++ fp) in
    let frac := Z.of_nat (String.length fp) in
    match r2 with
    | EmptyString => Some (mant, (- frac)%Z)
    | String c r =>
        if Ascii.eqb c "e" || Ascii.eqb c "E" then
          let '(neg, r3) :=
            match r with
            | String "-" r' => (true, r')
            | String "+" r' => (false, r')
            | _ => (false, r)
            end in
          if negb (String.eqb r3 "") && forall_string is_digit r3 then
            let x := digits_value 10 r3 in
            Some (mant, ((if neg then - x else x) - frac)%Z)
          else None
        else None
    end.

Definition radix_literal (radix : Z) (ds : string) : float :=
  if negb (String.eqb ds "") && forall_string (fun c => match radix_digit radix c with Some _ => true | None => false end) ds
  then float_of_ratio (digits_value radix ds) 1
  else PrimFloat.nan.

Definition StringToNumber (str : string) : float :=
  let t := trim str in
  match t with
  | EmptyString => PrimFloat.zero
  | String "0" (String c ds) =>
      if Ascii.eqb c "x" || Ascii.eqb c "X" then radix_literal 16 ds
      else if Ascii.eqb c "o" || Ascii.eqb c "O" then radix_literal 8 ds
      else if Ascii.eqb c "b" || Ascii.eqb c "B" then radix_literal 2 ds
      else
        match parse_decimal t with
        | Some (m, ex) => float_of_ratio (m * 10 ^ Z.max ex 0) (10 ^ Z.max (- ex) 0)
        | None => PrimFloat.nan
        end
  | _ =>
      let '(neg, u) :=
        match t with
        | String "-" r => (true, r)
        | String "+" r => (false, r)
        | _ => (false, t)
        end in
      if String.eqb u "Infinity" then (if neg then PrimFloat.neg_infinity else PrimFloat.infinity)
      else
        match parse_decimal u with
        | Some (m, ex) => float_of_signed neg (m * 10 ^ Z.max ex 0) (10 ^ Z.max (- ex) 0)
        | None => PrimFloat.nan
        end
  end.

(** [Number(v)] for [v] a string or [undefined]: [undefined] gives NaN. *)
Definition Number (v : option string) : float :=
  match v with
  | Some s => StringToNumber s
  | None => PrimFloat.nan
  end.

(** [parseInt(s, 16)] (ECMA-262 19.2.5). *)
Definition parseInt16 (s : string) : float :=
  let s1 := trimStart s in
  let '(neg, s2) :=
    match s1 with
    | String "-" r => (true, r)
    | String "+" r => (false, r)
    | _ => (false, s1)
    end in
  let s3 :=
    match s2 with
    | String "0" (String c r) => if Ascii.eqb c "x" || Ascii.eqb c "X" then r else s2
    | _ => s2
    end in
  let z := take_while (fun c => match radix_digit 16 c with Some _ => true | None => false end) s3 in
  match z with
  | EmptyString => PrimFloat.nan
  | _ => float_of_signed neg (digits_value 16 z) 1
  end.

(** *** [lastIndexOf] and [slice] *)

(** [s.lastIndexOf(c)] for a one-character [c], scanning from index [i] with
    the last index [found] so far. *)
Fixpoint lastIndexOf_from (s : string) (c : ascii) (i found : Z) : Z :=
  match s with
  | EmptyString => found
  | String x r => lastIndexOf_from r c (i + 1) (if Ascii.eqb x c then i else found)
  end.

(** [s.lastIndexOf(c)]: -1 when [c] does not occur. *)
Definition lastIndexOf (s : string) (c : ascii) : Z := lastIndexOf_from s c 0 (-1).

(** [s.slice(n)] for [0 <= n]: from index [n], clamped, to the end. *)
Definition slice (s : string) (n : Z) : string :=
  String.substring (Z.to_nat n) (String.length s - Z.to_nat n) s.

End Js.

(** *** Completions *)

Inductive error : Type :=
  | TypeError
  | Error (message : string).

(** How a call ends: with a value, with a thrown exception, or
    ([ImplDefined]) with a result that ECMA-262 leaves to the implementation
    (see [Js.Number_toString16]). *)
Inductive completion (A : Type) : Type :=
  | Normal (a : A)
  | Throw (e : error)
  | ImplDefined.

Arguments Normal {A} a.
Arguments Throw {A} e.
Arguments ImplDefined {A}.

(** ** Objects as ordered maps

    A plain object with string keys is the list of its own properties in
    insertion order.  [OrdinaryOwnPropertyKeys] lists the keys that are array
    indices first, in ascending order, then the others in insertion order. *)

Module Obj.

Definition t (A : Type) : Type := list (string * A).

Fixpoint get {A} (o : t A) (k : string) : option A :=
  match o with
  | [] => None
  | (k', v) :: r => if String.eqb k' k then Some v else get r k
  end.

(** [o[k] = v]: an existing property keeps its place. *)
Fixpoint set {A} (o : t A) (k : string) (v : A) : t A :=
  match o with
  | [] => [(k, v)]
  | (k', v') :: r => if String.eqb k' k then (k', v) :: r else (k', v') :: set r k v
  end.

(** A canonical numeric string below 2^32 - 1. *)
Definition array_index (k : string) : option Z :=
  if negb (String.eqb k "") && Js.forall_string Js.is_digit k
     && (String.eqb k "0" || negb (Js.startsWith k "0")) then
    let z := Js.digits_value 10 k in
    if (z <? 4294967295)%Z then Some z else None
  else None.

Fixpoint insert_index {A} (z : Z) (e : string * A) (l : list (Z * (string * A))) :=
  match l with
  | [] => [(z, e)]
  | (z', e') :: r => if (z <? z')%Z then (z, e) :: l else (z', e') :: insert_index z e r
  end.

Fixpoint index_entries {A} (o : t A) : list (Z * (string * A)) :=
  match o with
  | [] => []
  | (k, v) :: r =>
      match array_index k with
      | Some z => insert_index z (k, v) (index_entries r)
      | None => index_entries r
      end
  end.

Definition named_entries {A} (o : t A) : list (string * A) :=
  filter (fun e => match array_index (fst e) with Some _ => false | None => true end) o.

(** [Object.entries(o)], and the order of [for (k in o)] over own properties. *)
Definition entries {A} (o : t A) : list (string * A) :=
  map snd (index_entries o) ++ named_entries o.

Definition keys {A} (o : t A) : list string := map fst (entries o).
Definition values {A} (o : t A) : list A := map snd (entries o).

(** The own properties of a string: its characters under their indices. *)
Fixpoint of_string_from (i : Z) (s : string) : t string :=
  match s with
  | EmptyString => []
  | String c r => (Js.decimal i, String c EmptyString) :: of_string_from (i + 1) r
  end.

Definition of_string (s : string) : t string := of_string_from 0 s.

End Obj.

(** ** The regular expressions of the code

    Each pattern is embedded as the function that [RegExp.prototype.exec]
    computes for it: the capture groups of the leftmost match, or [None]. *)

Module Re.

Definition strip_prefix (p s : string) : option string :=
  if Js.startsWith s p
  then Some (String.substring (String.length p) (String.length s - String.length p) s)
  else None.

(** An argument that is [null] is converted to the string ["null"]. *)
Definition subject (v : option string) : string :=
  match v with
  | Some s => s
  | None => "null"
  end.

(** [(.*?)-]: the shortest run of characters other than line terminators
    that a [-] follows. *)
Fixpoint lazy_dash (s : string) : option string :=
  match s with
  | EmptyString => None
  | String c r =>
      if Ascii.eqb c "-" then Some EmptyString
      else if Js.is_line_terminator c then None
      else option_map (String c) (lazy_dash r)
  end.

(** [/^--dh-color-(.*?)-/] *)
Definition color_name (s : string) : option string :=
  match strip_prefix "--dh-color-" s with
  | Some r => lazy_dash r
  | None => None
  end.

Definition dash_digit (s : string) : bool :=
  match s with
  | String c (String d _) => Ascii.eqb c "-" && Js.is_digit d
  | _ => false
  end.

(** [(.*?)-\d] *)
Fixpoint lazy_dash_digit (s : string) : option string :=
  match s with
  | EmptyString => None
  | String c r =>
      if dash_digit s then Some EmptyString
      else if Js.is_line_terminator c then None
      else option_map (String c) (lazy_dash_digit r)
  end.

(** [/^--dh-color-(.*?)-\d/] *)
Definition color_prop (s : string) : option string :=
  match strip_prefix "--dh-color-" s with
  | Some r => lazy_dash_digit r
  | None => None
  end.

(** [/-hue$/], [/-label$/], [/-hsl$/]: a literal just before the end of input. *)
Definition ends (suffix : string) (v : option string) : bool :=
  Js.endsWith (subject v) suffix.

(** [/-(\d+)$/]: the digits after the first [-] that only digits follow. *)
Fixpoint weight (s : string) : option string :=
  match s with
  | EmptyString => None
  | String c r =>
      if Ascii.eqb c "-" && negb (String.eqb r "") && Js.forall_string Js.is_digit r
      then Some r
      else weight r
  end.

(** [\d{1,3}] followed by the rest of the pattern: greedy, and no shorter
    run can be followed by the literal that comes next. *)
Definition digits_1_3 (s : string) : option (string * string) :=
  let d := Js.take_while Js.is_digit s in
  if (1 <=? String.length d)%nat && (String.length d <=? 3)%nat
  then Some (d, Js.skip_while Js.is_digit s)
  else None.

(** [/^rgb\((\d{1,3}) (\d{1,3}) (\d{1,3})\)$/] *)
Definition rgb (s : string) : option (string * string * string) :=
  match strip_prefix "rgb(" s with
  | None => None
  | Some s1 =>
  match digits_1_3 s1 with
  | None => None
  | Some (r, s2) =>
  match strip_prefix " " s2 with
  | None => None
  | Some s3 =>
  match digits_1_3 s3 with
  | None => None
  | Some (g, s4) =>
  match strip_prefix " " s4 with
  | None => None
  | Some s5 =>
  match digits_1_3 s5 with
  | None => None
  | Some (b, s6) => if String.eqb s6 ")" then Some (r, g, b) else None
  end end end end end end.

(** [\d+] *)
Definition digits (s : string) : option (string * string) :=
  let d := Js.take_while Js.is_digit s in
  if String.eqb d "" then None else Some (d, Js.skip_while Js.is_digit s).

(** [\d+(?:\.\d+)?] *)
Definition decimal_number (s : string) : option (string * string) :=
  match digits s with
  | None => None
  | Some (ip, r) =>
      match r with
      | String "." r' =>
          match digits r' with
          | Some (fp, r'') => Some (ip ++ "." ++ fp, r'')
          | None => Some (ip, r)
          end
      | _ => Some (ip, r)
      end
  end.

(** [/^hsl\((\d+)deg (\d+(?:\.\d+)?)% (\d+(?:\.\d+)?)%\)$/] *)
Definition hsl (s : string) : option (string * string * string) :=
  match strip_prefix "hsl(" s with
  | None => None
  | Some s1 =>
  match digits s1 with
  | None => None
  | Some (h, s2) =>
  match strip_prefix "deg " s2 with
  | None => None
  | Some s3 =>
  match decimal_number s3 with
  | None => None
  | Some (sat, s4) =>
  match strip_prefix "% " s4 with
  | None => None
  | Some s5 =>
  match decimal_number s5 with
  | None => None
  | Some (l, s6) => if String.eqb s6 "%)" then Some (h, sat, l) else None
  end end end end end end.

(** [/^(rgba?)\((.*?)\)$/]: the name and the arguments, which end at the
    closing parenthesis that ends the input. *)
Definition rgba_call (s : string) : option (string * string) :=
  let body name r :=
    if Js.endsWith r ")" && Js.forall_string (fun c => negb (Js.is_line_terminator c)) (Js.dropEnd r 1)
    then Some (name, Js.dropEnd r 1)
    else None in
  match strip_prefix "rgba(" s with
  | Some r => body "rgba" r
  | None =>
      match strip_prefix "rgb(" s with
      | Some r => body "rgb" r
      | None => None
      end
  end.

(** The pattern of the query string, [?css=] at the start and then a greedy
    dot-star group up to the end: what follows [?css=]. *)
Definition css_param (s : string) : option string :=
  match strip_prefix "?css=" s with
  | Some r =>
      if Js.forall_string (fun c => negb (Js.is_line_terminator c)) r then Some r else None
  | None => None
  end.

End Re.

(** ** The document *)

Module Dom.

Record CSSRule : Type := {
  (** the property names the rule declares, in order; [None] for a rule
      that has no [style] (an at-rule) *)
  style : option (list string)
}.

Record CSSStyleSheet : Type := {
  href : option string;
  cssRules : list CSSRule
}.

Inductive markup : Type :=
  | InnerHTML (html : string)
  | InnerText (text : string).

(** A [div] the swatch builders create: what was assigned to it. *)
Record Div : Type := {
  className : string;
  content : markup;
  marginTop : option string;
  backgroundColor : option string;
  color : option string;
  title : option string
}.

(** The style engine, as seen from a swatch: the computed value of a custom
    property, and the computed [background-color] that a declared
    [background-color] resolves to. *)
Record ComputedStyle : Type := {
  getPropertyValue : string -> string;
  resolveBackground : string -> string
}.

(** A child of [#container]: the heading, or a swatch. *)
Inductive node : Type :=
  | H1 (innerText : string)
  | Swatch (div : Div).

End Dom.

(** ** [src/util.js] *)

Module Util.

Import Dom.

(** [extractColorName(property)] *)
Definition extractColorName (property : option string) : option string :=
  Re.color_name (Re.subject property).

(** [sheet.href?.endsWith(`/${cssPath}`)], as a condition *)
Definition hrefMatches (cssPath : string) (sheet : CSSStyleSheet) : bool :=
  match href sheet with
  | Some h => Js.endsWith h ("/" ++ cssPath)
  | None => false
  end.

(** [getCssPropertyNames(cssPath)], over [document.styleSheets].  Reading
    [.style] of a missing first rule, or the values of a missing [style],
    throws a [TypeError]. *)
Definition getCssPropertyNames (styleSheets : list CSSStyleSheet) (cssPath : string)
  : completion (list string) :=
  match find (hrefMatches cssPath) styleSheets with
  | None => Throw (Error "No style sheet found")
  | Some styleSheet =>
      match cssRules styleSheet with
      | [] => Throw TypeError
      | rule :: _ =>
          match style rule with
          | None => Throw TypeError
          | Some names => Normal (filter (fun property => Js.startsWith property "--") names)
          end
      end
  end.

Definition alphanumeric (c : ascii) : bool :=
  Js.is_lower c || Js.is_upper c || Js.is_digit c.

(** [hex.replace(/[a-z0-9]/gi, "$&$&")] *)
Fixpoint double_alphanumerics (s : string) : string :=
  match s with
  | EmptyString => EmptyString
  | String c r =>
      if alphanumeric c then String c (String c (double_alphanumerics r))
      else String c (double_alphanumerics r)
  end.

Definition hexToRgb (hex : string) : string :=
  if negb (Js.startsWith hex "#") then hex
  else
    let hex := if (String.length hex =? 4)%nat then double_alphanumerics hex else hex in
    let r := Js.parseInt16 (Js.substring hex 1 3) in
    let g := Js.parseInt16 (Js.substring hex 3 5) in
    let b := Js.parseInt16 (Js.substring hex 5 7) in
    "rgb(" ++ Js.Number_toString r ++ " " ++ Js.Number_toString g ++ " "
    ++ Js.Number_toString b ++ ")".

Record rgba : Type := { r : float; g : float; b : float; a : float }.

Definition delimiter (c : ascii) : bool :=
  Ascii.eqb c " " || Ascii.eqb c "," || Ascii.eqb c "/".

(** [args.split(/[ ,/]/)] *)
Fixpoint split (s : string) : list string :=
  match s with
  | EmptyString => [EmptyString]
  | String c rest =>
      if delimiter c then EmptyString :: split rest
      else
        match split rest with
        | t :: ts => String c t :: ts
        | [] => [String c EmptyString]
        end
  end.

Definition parseRgba (rgbOrRgbaString : string) : option rgba :=
  match Re.rgba_call rgbOrRgbaString with
  | None => None
  | Some (_, args) =>
      let tokens := filter (fun t => negb (String.eqb t "")) (split args) in
      match map Js.StringToNumber tokens with
      | r :: g :: b :: rest =>
          Some {| r := r; g := g; b := b;
                  a := match rest with a :: _ => a | [] => PrimFloat.one end |}
      | _ => None
      end
  end.

(** [rgbaToHex8]: destructuring [null] throws. *)
Definition rgbaToHex8 (arg : option rgba) : completion string :=
  match arg with
  | None => Throw TypeError
  | Some c =>
      let a := Js.Math_round (a c * 255)%float in
      match Js.Number_toString16 (r c), Js.Number_toString16 (g c),
            Js.Number_toString16 (b c), Js.Number_toString16 a with
      | Some rh, Some gh, Some bh, Some ah =>
          Normal ("#" ++ Js.padStart0 rh 2 ++ Js.padStart0 gh 2
                  ++ Js.padStart0 bh 2 ++ Js.padStart0 ah 2)
      | _, _, _, _ => ImplDefined
      end
  end.

(** The hue, saturation and lightness of [rgbToHsl], before rounding.  When
    no branch assigns [h] it stays [undefined], which compares and rounds as
    NaN does. *)
Definition hsl_of (r g b : float) : float * float * float :=
  let min := Js.Math_min r g b in
  let max := Js.Math_max r g b in
  let l := ((min + max) / 2)%float in
  let s := if (l <=? 0.5)%float then ((max - min) / (max + min))%float
           else ((max - min) / (2 - max - min))%float in
  let h :=
    if (max =? min)%float then 0%float
    else if (max =? r)%float then (60 * ((g - b) / (max - min)))%float
    else if (max =? g)%float then (60 * ((b - r) / (max - min)) + 120)%float
    else if (max =? b)%float then (60 * ((r - g) / (max - min)) + 240)%float
    else PrimFloat.nan in
  let h := if (h <? 0)%float then (h + 360)%float else h in
  (h, s, l).

Definition rgbToHsl (rgb : string) : string :=
  match Re.rgb rgb with
  | None => rgb
  | Some (r, g, b) =>
      let r := (Js.StringToNumber r / 255)%float in
      let g := (Js.StringToNumber g / 255)%float in
      let b := (Js.StringToNumber b / 255)%float in
      let '(h, s, l) := hsl_of r g b in
      let hsl_h := Js.Math_round h in
      let hsl_s := (Js.Math_round (s * 1000) / 10)%float in
      let hsl_l := (Js.Math_round (l * 1000) / 10)%float in
      "hsl(" ++ Js.Number_toString hsl_h ++ "deg " ++ Js.Number_toString hsl_s ++ "% "
      ++ Js.Number_toString hsl_l ++ "%)"
  end.

(** *** [buildSwatches] *)

Definition option_string_eqb (x y : option string) : bool :=
  match x, y with
  | Some a, Some b => String.eqb a b
  | None, None => true
  | _, _ => false
  end.

(** The state the [forEach] callback reads and writes: the children appended
    to the container, and the local [prevProperty]. *)
Record state : Type := {
  children : list Div;
  prevProperty : option string
}.

Definition label (computedStyle : ComputedStyle) (property : string) : string :=
  let colorValue := getPropertyValue computedStyle property in
  let hslColorValue := rgbToHsl (hexToRgb (getPropertyValue computedStyle property)) in
  let isHex := negb (String.eqb colorValue hslColorValue) in
  let isLabel := Re.ends "-label" (Some property) in
  property ++ ": "
  ++ (if negb isHex && negb isLabel then colorValue
      else colorValue ++ " <span title=" ++ Js.dquote ++ "HSL based on original HEX color"
           ++ Js.dquote ++ ">"
           ++ (if isLabel then "HSL derived from hex" else hslColorValue) ++ "</span>").

Definition spaced (i : nat) (prevProperty : option string) (property : string) : bool :=
  (0 <? i)%nat
  && negb (option_string_eqb (extractColorName (Some property)) (extractColorName prevProperty))
  && negb (Re.ends "-hue" prevProperty).

(** [property.replace(/-hsl$/, "")] *)
Definition strip_hsl (property : string) : string :=
  if Re.ends "-hsl" (Some property) then Js.dropEnd property 4 else property.

(** [colorWeight == null || colorWeight < 700 ? dark : light].  The weight is
    a string of digits, compared as the number it denotes (rounding to
    binary64 is monotone and 700 is exact, so the comparison is that of the
    integers). *)
Definition foreground (property : string) : string :=
  match Re.weight property with
  | None => "var(--dh-color-gray-800)"
  | Some colorWeight =>
      if (Js.digits_value 10 colorWeight <? 700)%Z then "var(--dh-color-gray-800)"
      else "var(--dh-color-gray-75)"
  end.

(** One call of the callback of [cssPropertyNames.forEach]. *)
Definition callback (computedStyle : ComputedStyle) (st : state) (property : string) (i : nat)
  : state * completion unit :=
  if Js.endsWith property "-hsl" then (st, Normal tt)
  else
    let div := {| className := "swatch";
                  content := InnerHTML (label computedStyle property);
                  marginTop := if spaced i (prevProperty st) property then Some "40px" else None;
                  backgroundColor := None;
                  color := None;
                  title := None |} in
    if Re.ends "-hue" (Some property) then
      ({| children := children st ++ [div]; prevProperty := Some property |}, Normal tt)
    else
      let bgColor := "var(" ++ strip_hsl property ++ ")" in
      let styled := {| className := className div;
                       content := content div;
                       marginTop := marginTop div;
                       backgroundColor := Some bgColor;
                       color := Some (foreground property);
                       title := None |} in
      match rgbaToHex8 (parseRgba (resolveBackground computedStyle bgColor)) with
      | Normal hex8 =>
          ({| children := children st
                          ++ [{| className := className styled;
                                 content := content styled;
                                 marginTop := marginTop styled;
                                 backgroundColor := backgroundColor styled;
                                 color := color styled;
                                 title := Some (Js.substring hex8 0 7) |}];
              prevProperty := Some property |}, Normal tt)
      | Throw e =>
          ({| children := children st ++ [styled]; prevProperty := prevProperty st |}, Throw e)
      | ImplDefined =>
          ({| children := children st ++ [styled]; prevProperty := prevProperty st |}, ImplDefined)
      end.

(** [names.forEach(callback)] from index [i] on; an exception ends the loop. *)
Fixpoint forEach (f : state -> string -> nat -> state * completion unit)
  (st : state) (names : list string) (i : nat) : state * completion unit :=
  match names with
  | [] => (st, Normal tt)
  | property :: rest =>
      match f st property i with
      | (st', Normal _) => forEach f st' rest (S i)
      | (st', c) => (st', c)
      end
  end.

(** [buildSwatches(containerEl, cssPropertyNames)]: the children of the
    container afterwards, and how the call ended. *)
Definition buildSwatches (computedStyle : ComputedStyle) (containerEl : list Div)
  (cssPropertyNames : list string) : list Div * completion unit :=
  let '(st, c) := forEach (callback computedStyle)
                    {| children := containerEl; prevProperty := None |} cssPropertyNames 0 in
  (children st, c).

(** *** [generateHSLRanges] *)

(** The names a plain object inherits from [Object.prototype].  Looking one
    of them up in [colorGroups] finds the inherited member, which is not
    [null]: no group is created and the value is stored on that member. *)
Definition inherited (k : string) : bool :=
  existsb (String.eqb k)
    ["constructor"; "hasOwnProperty"; "isPrototypeOf"; "propertyIsEnumerable";
     "toLocaleString"; "toString"; "valueOf"; "__defineGetter__"; "__defineSetter__";
     "__lookupGetter__"; "__lookupSetter__"].

(** [colorGroups] after the first loop.  [colorGroups.__proto__] is
    [Object.prototype] itself, so a property of the family [__proto__] is
    stored there, where every object inherits it: [proto] lists those. *)
Record groups : Type := {
  own : Obj.t (Obj.t string);
  proto : Obj.t string
}.

Definition addProperty (getValue : string -> string) (gs : groups) (property : string) : groups :=
  match Re.color_prop property with
  | None => gs
  | Some colorName =>
      if String.eqb colorName "__proto__" then
        {| own := own gs; proto := Obj.set (proto gs) property (getValue property) |}
      else if inherited colorName then gs
      else
        let group := match Obj.get (own gs) colorName with
                     | Some group => group
                     | None => []
                     end in
        {| own := Obj.set (own gs) colorName (Obj.set group property (getValue property));
           proto := proto gs |}
  end.

Definition initColorGroups (getValue : string -> string) (cssPropertyNames : list string) : groups :=
  fold_left (addProperty getValue) cssPropertyNames {| own := []; proto := [] |}.

(** The keys [for (const colorName in colorGroups)] visits, each with
    [colorGroups[colorName]]: the own keys, then the enumerable keys of the
    prototype that no own key shadows, whose values are strings. *)
Definition families (gs : groups) : list (string * Obj.t string) :=
  Obj.entries (own gs)
  ++ map (fun e => (fst e, Obj.of_string (snd e)))
       (filter (fun e => match Obj.get (own gs) (fst e) with Some _ => false | None => true end)
          (Obj.entries (proto gs))).

(** [Number(extractHsl.exec(hsl)?.[1])] *)
Definition hue_of (hsl : string) : float :=
  Js.Number (option_map (fun m => fst (fst m)) (Re.hsl hsl)).

(** [hueAvg]: 0 for [grayx]; otherwise the hues are added up from 0, the
    total is divided by the number of colours and the quotient rounded. *)
Definition hueAvg (colorName : string) (hslColors : list string) : float :=
  if String.eqb colorName "grayx" then PrimFloat.zero
  else Js.Math_round
         (fold_left (fun total hsl => (total + hue_of hsl)%float) hslColors PrimFloat.zero
          / Js.float_of_nonneg (Z.of_nat (List.length hslColors)))%float.

(** A capture that is [undefined] is interpolated as ["undefined"]. *)
Definition interpolate (v : option string) : string :=
  match v with
  | Some s => s
  | None => "undefined"
  end.

(** The value stored under [`${colorPropNames[i]}-hsl`]. *)
Definition offsetDeclaration (colorName : string) (hueAvg : float) (hsl : string) : string :=
  let m := Re.hsl hsl in
  let h := option_map (fun m => fst (fst m)) m in
  let s := option_map (fun m => snd (fst m)) m in
  let l := option_map (fun m => snd m) m in
  let offset := if String.eqb colorName "grayx" then PrimFloat.zero
                else (Js.Number h - hueAvg)%float in
  let sign := if (0 <=? offset)%float then "+" else "-" in
  if (offset =? 0)%float then
    "var(--dh-color-" ++ colorName ++ "-hue), " ++ interpolate s ++ "%, " ++ interpolate l ++ "%"
  else
    "calc(var(--dh-color-" ++ colorName ++ "-hue) " ++ sign ++ " "
    ++ Js.Number_toString (PrimFloat.abs offset) ++ "deg), "
    ++ interpolate s ++ "%, " ++ interpolate l ++ "%".

(** The three objects the second loop builds for one family. *)
Record family : Type := {
  baseHue : Obj.t string;
  hslGroup : Obj.t string;
  colorGroup : Obj.t string
}.

Definition hslColorsOf (group : Obj.t string) : list string :=
  map (fun hex => rgbToHsl (hexToRgb hex)) (Obj.values group).

Definition familyOf (colorName : string) (group : Obj.t string) : family :=
  let colorPropNames := Obj.keys group in
  let hslColors := hslColorsOf group in
  let avg := hueAvg colorName hslColors in
  let shades := combine colorPropNames hslColors in
  {| baseHue := [("--dh-color-" ++ colorName ++ "-hue", Js.Number_toString avg ++ "deg")];
     hslGroup :=
       fold_left (fun o shade =>
                    Obj.set o (fst shade ++ "-hsl") (offsetDeclaration colorName avg (snd shade)))
         shades [];
     colorGroup :=
       fold_left (fun o shade => Obj.set o (fst shade) ("hsl(var(" ++ fst shade ++ "-hsl))"))
         shades [] |}.

(** What the function logs: the three objects and the generated text. *)
Record ranges : Type := {
  baseHues : Obj.t (Obj.t string);
  hslColorGroups : Obj.t (Obj.t string);
  colorGroups : Obj.t (Obj.t string);
  content : string
}.

(** [colorName.replace(/^([a-z])/, (a) => a.toUpperCase())] *)
Definition capitalize (s : string) : string :=
  match s with
  | String c r => String (Js.toUpperCase_char c) r
  | EmptyString => EmptyString
  end.

Definition declarations (o : option (Obj.t string)) : list string :=
  match o with
  | Some o => map (fun e => fst e ++ ": " ++ snd e ++ ";") (Obj.entries o)
  | None => []
  end.

Definition newline : string := String (ascii_of_N 10) EmptyString.

Definition generateHSLRanges (getValue : string -> string) (cssPropertyNames : list string)
  : ranges :=
  let gs := initColorGroups getValue cssPropertyNames in
  let fams := families gs in
  let bh := fold_left (fun o f => Obj.set o (fst f) (baseHue (familyOf (fst f) (snd f)))) fams [] in
  let hg := fold_left (fun o f => Obj.set o (fst f) (hslGroup (familyOf (fst f) (snd f)))) fams [] in
  let cg := fold_left (fun o f => Obj.set o (fst f) (colorGroup (familyOf (fst f) (snd f))))
              fams (own gs) in
  {| baseHues := bh;
     hslColorGroups := hg;
     colorGroups := cg;
     content :=
       String.concat (newline ++ newline)
         (map (fun e =>
                 String.concat newline
                   ((["/* " ++ capitalize (fst e) ++ " */"]
                     ++ declarations (Obj.get bh (fst e)))
                    ++ [""] ++ declarations (Obj.get hg (fst e))
                    ++ [""] ++ declarations (Some (snd e))))
            (Obj.entries cg)) |}.

(** *** The page: path, loading and heading *)

(** [getCssPath()], over [window.location.search].  A captured empty string
    is not [null], so [??] keeps it. *)
Definition getCssPath (search : string) : string :=
  match Re.css_param search with
  | Some cssPath => cssPath
  | None => "themes/hex.css"
  end.

(** [setHeading(containerEl, cssPath)] *)
Definition setHeading (containerEl : list node) (cssPath : string) : list node :=
  (containerEl ++ [H1 (Js.slice cssPath (Js.lastIndexOf cssPath "/" + 1))])%list.

(** [loadCssProperties(cssPath)] once the link has loaded: [styleSheets] is
    [document.styleSheets] at that point and [getValue] the computed style of
    the body.  The result, and what [generateHSLRanges] logged, if it ran. *)
Definition loadCssProperties (styleSheets : list CSSStyleSheet) (getValue : string -> string)
  (cssPath : string) : completion (list string) * option ranges :=
  match getCssPropertyNames styleSheets cssPath with
  | Normal cssPropertyNames =>
      (Normal cssPropertyNames,
       if Js.endsWith cssPath "hex.css"
       then Some (generateHSLRanges getValue cssPropertyNames)
       else None)
  | Throw e => (Throw e, None)
  | ImplDefined => (ImplDefined, None)
  end.

End Util.

(** ** The earlier revision of [util.js] ([src/unnamed/part_000])

    [getCssPropertyNames], [extractColorName] and [hexToRgb] are the same
    text as in [util.js]; [rgbToHsl] rounds to whole percents and
    [buildSwatches] has no [-hsl] filter, no tooltip and the other
    foreground test. *)

Module Part000.

Import Dom.

Definition getCssPropertyNames := Util.getCssPropertyNames.
Definition extractColorName := Util.extractColorName.
Definition hexToRgb := Util.hexToRgb.

Definition rgbToHsl (rgb : string) : string :=
  match Re.rgb rgb with
  | None => rgb
  | Some (r, g, b) =>
      let r := (Js.StringToNumber r / 255)%float in
      let g := (Js.StringToNumber g / 255)%float in
      let b := (Js.StringToNumber b / 255)%float in
      let '(h, s, l) := Util.hsl_of r g b in
      let hsl_h := Js.Math_round h in
      let hsl_s := Js.Math_round (s * 100)%float in
      let hsl_l := Js.Math_round (l * 100)%float in
      "hsl(" ++ Js.Number_toString hsl_h ++ "deg " ++ Js.Number_toString hsl_s ++ "% "
      ++ Js.Number_toString hsl_l ++ "%)"
  end.

Definition label (computedStyle : ComputedStyle) (property : string) : string :=
  let colorValue := getPropertyValue computedStyle property in
  let hslColorValue := rgbToHsl (hexToRgb (getPropertyValue computedStyle property)) in
  property ++ ": "
  ++ (if String.eqb colorValue hslColorValue && negb (Re.ends "-label" (Some property))
      then colorValue
      else colorValue ++ " <span title=" ++ Js.dquote ++ "HSL based on original HEX color"
           ++ Js.dquote ++ ">"
           ++ (if Re.ends "-label" (Some property) then "HSL derived from hex" else hslColorValue)
           ++ "</span>").

(** [colorWeight == null || colorWeight >= 700 ? light : dark] *)
Definition foreground (property : string) : string :=
  match Re.weight property with
  | None => "var(--dh-color-gray-75)"
  | Some colorWeight =>
      if (700 <=? Js.digits_value 10 colorWeight)%Z then "var(--dh-color-gray-75)"
      else "var(--dh-color-gray-800)"
  end.

Definition callback (computedStyle : ComputedStyle) (st : Util.state) (property : string) (i : nat)
  : Util.state :=
  let div := {| className := "swatch";
                content := InnerHTML (label computedStyle property);
                marginTop := if Util.spaced i (Util.prevProperty st) property
                             then Some "40px" else None;
                backgroundColor := None;
                color := None;
                title := None |} in
  let div :=
    if Re.ends "-hue" (Some property) then div
    else {| className := className div;
            content := content div;
            marginTop := marginTop div;
            backgroundColor := Some ("var(" ++ property ++ ")");
            color := Some (foreground property);
            title := None |} in
  {| Util.children := Util.children st ++ [div]; Util.prevProperty := Some property |}.

Fixpoint forEach (f : Util.state -> string -> nat -> Util.state)
  (st : Util.state) (names : list string) (i : nat) : Util.state :=
  match names with
  | [] => st
  | property :: rest => forEach f (f st property i) rest (S i)
  end.

Definition buildSwatches (computedStyle : ComputedStyle) (containerEl : list Div)
  (cssPropertyNames : list string) : list Div :=
  Util.children
    (forEach (callback computedStyle)
       {| Util.children := containerEl; Util.prevProperty := None |} cssPropertyNames 0).

(** [loadCssProperties(cssPath)] once the link has loaded: this revision does
    not call the generator. *)
Definition loadCssProperties (styleSheets : list CSSStyleSheet) (cssPath : string)
  : completion (list string) :=
  getCssPropertyNames styleSheets cssPath.

End Part000.

(** ** The inline script [src/iframe.js]: its swatch loop *)

Module Iframe.

Import Dom.

(** [getPrefix(property)] *)
Definition getPrefix (property : option string) : option string :=
  Re.color_name (Re.subject property).

Definition spaced (i : nat) (prevProperty : option string) (property : string) : bool :=
  (0 <? i)%nat
  && negb (Util.option_string_eqb (getPrefix (Some property)) (getPrefix prevProperty))
  && negb (Re.ends "-hue" prevProperty).

(** [colorWeight == null || colorWeight >= 700 ? light : dark] *)
Definition foreground (property : string) : string :=
  match Re.weight property with
  | None => "var(--dh-color-gray-75)"
  | Some colorWeight =>
      if (700 <=? Js.digits_value 10 colorWeight)%Z then "var(--dh-color-gray-75)"
      else "var(--dh-color-gray-800)"
  end.

Definition callback (computedStyle : ComputedStyle) (st : Util.state) (property : string) (i : nat)
  : Util.state :=
  let div := {| className := "swatch";
                content := InnerText (property ++ ": " ++ getPropertyValue computedStyle property);
                marginTop := if spaced i (Util.prevProperty st) property
                             then Some "40px" else None;
                backgroundColor := None;
                color := None;
                title := None |} in
  let div :=
    if Re.ends "-hue" (Some property) then div
    else {| className := className div;
            content := content div;
            marginTop := marginTop div;
            backgroundColor := Some ("var(" ++ property ++ ")");
            color := Some (foreground property);
            title := None |} in
  {| Util.children := Util.children st ++ [div]; Util.prevProperty := Some property |}.

(** [cssProperties.forEach(...)] on the children of [#container]. *)
Definition swatches (computedStyle : ComputedStyle) (containerEl : list Div)
  (cssProperties : list string) : list Div :=
  Util.children
    (Part000.forEach (callback computedStyle)
       {| Util.children := containerEl; Util.prevProperty := None |} cssProperties 0).

(** The path of the script, the group of the same pattern as in
    [getCssPath], and the [throw] when it is [null]. *)
Definition cssPath (search : string) : completion string :=
  match Re.css_param search with
  | Some path => Normal path
  | None => Throw (Error "No css path provided")
  end.

(** The whole script once the link has loaded: the children of [#container]
    afterwards, and how the script ended.  The loop only appends to the
    container and never reads it, so its swatches are those it builds in an
    empty one, placed after the heading. *)
Definition script (search : string) (styleSheets : list CSSStyleSheet)
  (computedStyle : ComputedStyle) (containerEl : list node) : list node * completion unit :=
  match cssPath search with
  | Throw e => (containerEl, Throw e)
  | ImplDefined => (containerEl, ImplDefined)
  | Normal path =>
      match Util.getCssPropertyNames styleSheets path with
      | Throw e => (containerEl, Throw e)
      | ImplDefined => (containerEl, ImplDefined)
      | Normal cssProperties =>
          ((containerEl ++ [H1 (Js.slice path (Js.lastIndexOf path "/" + 1))]
            ++ map Swatch (swatches computedStyle [] cssProperties))%list, Normal tt)
      end
  end.

End Iframe.

(** ** [src/palette.js] *)

Module Palette.

Import Dom.

(** The module body once the link has loaded.  [buildSwatches] only appends
    to the container and never reads it, so its swatches are those it builds
    in an empty one, placed after the heading. *)
Definition main (search : string) (styleSheets : list CSSStyleSheet)
  (getValue : string -> string) (computedStyle : ComputedStyle) (containerEl : list node)
  : list node * completion unit :=
  let cssPath := Util.getCssPath search in
  match fst (Util.loadCssProperties styleSheets getValue cssPath) with
  | Throw e => (containerEl, Throw e)
  | ImplDefined => (containerEl, ImplDefined)
  | Normal cssPropertyNames =>
      let '(divs, c) := Util.buildSwatches computedStyle [] cssPropertyNames in
      ((Util.setHeading containerEl cssPath ++ map Swatch divs)%list, c)
  end.

End Palette.


(** ** Notions of the specification *)

Module Spec.

Import Dom.

(** The colour string [rgb(v v v)]. *)
Definition gray (v : Z) : string :=
  "rgb(" ++ Js.decimal v ++ " " ++ Js.decimal v ++ " " ++ Js.decimal v ++ ")".

Definition hex_digit (c : ascii) : bool :=
  match Js.radix_digit 16 c with
  | Some _ => true
  | None => false
  end.

(** Hex to RGB with [hexToRgb], back with [parseRgba] and [rgbaToHex8], and
    the RGB part of the result as [buildSwatches] takes it:
    [hex8.substring(0, 7)]. *)
Definition hexToRgbToHex (hex : string) : completion string :=
  match Util.rgbaToHex8 (Util.parseRgba (Util.hexToRgb hex)) with
  | Normal hex8 => Normal (Js.substring hex8 0 7)
  | Throw e => Throw e
  | ImplDefined => ImplDefined
  end.

(** The last character of a string. *)
Fixpoint last_char (s : string) : option ascii :=
  match s with
  | EmptyString => None
  | String c EmptyString => Some c
  | String _ r => last_char r
  end.

(** A style engine for the examples: every custom property is [#123456],
    and every background resolves to the same colour. *)
Definition demo : ComputedStyle :=
  {| getPropertyValue := fun _ => "#123456";
     resolveBackground := fun _ => "rgb(18, 52, 86)" |}.

(** A palette with a pure black member, for the examples. *)
Definition palette (property : string) : string :=
  if String.eqb property "--dh-color-gray-900" then "#000000"
  else if String.eqb property "--dh-color-blue-100" then "#0000ff"
  else if String.eqb property "--dh-color-blue-200" then "#0040ff"
  else if String.eqb property "--dh-color-blue-300" then "#4000ff"
  else "#808080".

(** Hue 0 and saturation 0%: the result reads [hsl(0deg 0% L%)]. *)
Definition gray_ok (f : string -> string) (v : Z) : bool :=
  Js.startsWith (f (gray v)) "hsl(0deg 0% " && Js.endsWith (f (gray v)) "%)".

(** Loaded style sheets for the examples: an inline sheet, then a theme. *)
Definition sheets : list CSSStyleSheet :=
  [ {| href := None; cssRules := [] |};
    {| href := Some "http://localhost/themes/hex.css";
       cssRules := [ {| style := Some ["--dh-color-blue-100"; "color"; "--dh-color-blue-hue"] |} ] |} ].

(** The same state inside a container that already has children. *)
Definition within (c : list Div) (st : Util.state) : Util.state :=
  {| Util.children := (c ++ Util.children st)%list; Util.prevProperty := Util.prevProperty st |}.

(** The foreground a numeric suffix selects. *)
Definition threshold (colorWeight : string) : string :=
  if (700 <=? Js.digits_value 10 colorWeight)%Z then "var(--dh-color-gray-75)"
  else "var(--dh-color-gray-800)".

(** The element a builder leaves for a hue property: class and text, and
    no colour of its own. *)
Definition uncoloured (text : markup) (margin : option string) : Div :=
  {| className := "swatch"; content := text; marginTop := margin;
     backgroundColor := None; color := None; title := None |}.

(** One channel: the two hex digits read by [parseInt] and printed in
    decimal by [hexToRgb]. *)
Definition channel (c1 c2 : ascii) : string :=
  Js.Number_toString (Js.parseInt16 (String c1 (String c2 ""))).

(** What the round trip needs of a channel: its text is a number in
    digits, which [parseRgba] and [rgbaToHex8] turn into the two digits in
    lower case. *)
Definition channel_ok (c1 c2 : ascii) : bool :=
  let t := channel c1 c2 in
  negb (String.eqb t "") && Js.forall_string Js.is_digit t
  && match Js.Number_toString16 (Js.StringToNumber t) with
     | Some h => String.eqb (Js.padStart0 h 2)
                   (String (Js.toLowerCase_char c1) (String (Js.toLowerCase_char c2) ""))
     | None => false
     end.

(** The 256 characters, and the hex digits among them. *)
Definition all_chars : list ascii := map ascii_of_nat (seq 0 256).

Definition hex_chars : list ascii := filter hex_digit all_chars.

(** The text of an offset declaration for a hue [delta] degrees away from
    the baseline of the family. *)
Definition offsetText (colorName : string) (delta : Z) (s l : string) : string :=
  if (0 <? delta)%Z then
    "calc(var(--dh-color-" ++ colorName ++ "-hue) + " ++ Js.decimal delta ++ "deg), "
    ++ s ++ "%, " ++ l ++ "%"
  else if (delta <? 0)%Z then
    "calc(var(--dh-color-" ++ colorName ++ "-hue) - " ++ Js.decimal (- delta) ++ "deg), "
    ++ s ++ "%, " ++ l ++ "%"
  else "var(--dh-color-" ++ colorName ++ "-hue), " ++ s ++ "%, " ++ l ++ "%".

(** Keys are distinct, in [colorGroups] and in each of its groups. *)
Definition distinct_keys (gs : Util.groups) : Prop :=
  NoDup (map fst (Util.own gs))
  /\ forall colorName group, In (colorName, group) (Util.own gs) -> NoDup (map fst group).

(** Three shades of one family, for the examples. *)
Definition blues : list string :=
  ["--dh-color-blue-100"; "--dh-color-blue-200"; "--dh-color-blue-300"].

(** No group of [colorGroups] is empty. *)
Definition inhabited (gs : Util.groups) : Prop :=
  forall colorName group, In (colorName, group) (Util.own gs) -> group <> [].

(** The binary64 number an integer is. *)
Definition float_of_int (z : Z) : float :=
  if (z <? 0)%Z then (- Js.float_of_nonneg (- z))%float else Js.float_of_nonneg z.

(** The integers [start], [start + 1], ..., [len] of them. *)
Fixpoint zseq (start : Z) (len : nat) : list Z :=
  match len with
  | O => []
  | S k => start :: zseq (start + 1) k
  end.

(** The hues [rgbToHsl] prints. *)
Definition hues : list Z := zseq 0 361.

(** The largest family for which the hue arithmetic is checked. *)
Definition max_shades : nat := 32.

(** Reading the decimal text of a hue gives the binary64 number of that
    integer, and printing that number gives the text back. *)
Definition hue_io_ok (z : Z) : bool :=
  PrimFloat.Leibniz.eqb (Js.StringToNumber (Js.decimal z)) (Js.float_of_nonneg z)
  && String.eqb (Js.Number_toString (Js.float_of_nonneg z)) (Js.decimal z).

(** Adding a hue to a total is exact. *)
Definition hue_sum_ok (total h : Z) : bool :=
  PrimFloat.Leibniz.eqb (Js.float_of_nonneg total + Js.float_of_nonneg h)%float
    (Js.float_of_nonneg (total + h)).

(** The offset [h - a] in binary64, its tests [>= 0] and [=== 0] and its
    absolute value are those of the integers. *)
Definition hue_offset_ok (h a : Z) : bool :=
  let d := (Js.float_of_nonneg h - Js.float_of_nonneg a)%float in
  let z := (h - a)%Z in
  PrimFloat.Leibniz.eqb d (float_of_int z)
  && Bool.eqb (PrimFloat.leb 0 d) (0 <=? z)%Z
  && Bool.eqb (PrimFloat.eqb d 0) (z =? 0)%Z
  && PrimFloat.Leibniz.eqb (PrimFloat.abs d) (Js.float_of_nonneg (Z.abs z)).

(** [Math.round(total / n)] is the integer nearest to the quotient, halves
    upwards. *)
Definition hue_average_ok (n total : Z) : bool :=
  PrimFloat.Leibniz.eqb (Js.Math_round (Js.float_of_nonneg total / Js.float_of_nonneg n)%float)
    (Js.float_of_nonneg ((2 * total + n) / (2 * n))).

(** The average of some hues, rounded to the nearest integer, halves
    upwards. *)
Definition rounded_average (hues : list Z) : Z :=
  let n := Z.of_nat (List.length hues) in
  ((2 * fold_right Z.add 0 hues + n) / (2 * n))%Z.

(** The HSL form [hsl] reads [hsl(Hdeg S% L%)] for the hue [H], a whole
    number of degrees from 0 to 360 in decimal notation. *)
Definition hue_read (hsl : string) (hue : Z) : Prop :=
  (0 <= hue <= 360)%Z /\ exists s l, Re.hsl hsl = Some (Js.decimal hue, s, l).

(** The address of the sheet ends in a slash followed by [cssPath]. *)
Definition served_at (cssPath : string) (sheet : CSSStyleSheet) : Prop :=
  exists dir, href sheet = Some (dir ++ "/" ++ cssPath).

(** The address of the sheet ends in [cssPath]. *)
Definition suffix_matches (cssPath : string) (sheet : CSSStyleSheet) : Prop :=
  exists pre, href sheet = Some (pre ++ cssPath).

(** *** Notions of the further properties *)

(** A string without a line end: what [.] of a pattern can run over. *)
Definition one_line (s : string) : Prop :=
  Js.forall_string (fun c => negb (Js.is_line_terminator c)) s = true.

(** A string without a slash. *)
Definition no_slash (s : string) : Prop :=
  Js.forall_string (fun c => negb (Ascii.eqb c "/")) s = true.

(** A family name: no dash and no line end. *)
Definition plain_name (s : string) : Prop :=
  Js.forall_string (fun c => negb (Ascii.eqb c "-") && negb (Js.is_line_terminator c)) s = true.

(** The value of a pair of hex digits. *)
Definition pair_value (c1 c2 : ascii) : Z := Js.digits_value 16 (String c1 (String c2 "")).

(** A pair of hex digits converts to the decimal text of its value, a byte
    of at most three digits. *)
Definition channel_value_ok (c1 c2 : ascii) : bool :=
  String.eqb (channel c1 c2) (Js.decimal (pair_value c1 c2))
  && (0 <=? pair_value c1 c2)%Z && (pair_value c1 c2 <=? 255)%Z
  && (String.length (channel c1 c2) <=? 3)%nat.

(** An argument of [rgb(...)]: not empty, without delimiter or line end. *)
Definition token (t : string) : Prop :=
  t <> ""
  /\ Js.forall_string (fun c => negb (Util.delimiter c) && negb (Js.is_line_terminator c)) t = true.

(** What separates two arguments: one or more of space, comma and slash. *)
Definition separator (d : string) : Prop :=
  d <> "" /\ Js.forall_string Util.delimiter d = true.

(** [args.split(/[ ,/]/).filter(Boolean)] *)
Definition tokens (args : string) : list string :=
  filter (fun t => negb (String.eqb t "")) (Util.split args).

(** The two spellings of the function name. *)
Definition function_name (alpha : bool) : string := if alpha then "rgba(" else "rgb(".

(** A channel value and its text, as the style engine prints it. *)
Definition byte_ok (v : Z) : bool :=
  let t := Js.decimal v in
  negb (String.eqb t "")
  && Js.forall_string (fun c => negb (Util.delimiter c) && negb (Js.is_line_terminator c)) t
  && match Js.Number_toString16 (Js.StringToNumber t) with
     | Some h =>
         match Js.padStart0 h 2 with
         | String x (String y EmptyString) =>
             hex_digit x && hex_digit y && String.eqb (channel x y) t
         | _ => false
         end
     | None => false
     end.

(** The names [buildSwatches] of [util.js] renders. *)
Definition rendered (names : list string) : list string :=
  filter (fun property => negb (Js.endsWith property "-hsl")) names.

(** The start of a call of a swatch builder on a container. *)
Definition start (containerEl : list Div) : Util.state :=
  {| Util.children := containerEl; Util.prevProperty := None |}.

(** A style engine whose backgrounds are not in [rgb()] notation. *)
Definition wide_gamut : ComputedStyle :=
  {| getPropertyValue := fun _ => "#123456";
     resolveBackground := fun _ => "color(srgb 0.07 0.2 0.34)" |}.

(** One element per rendered name, in order. *)
Definition labelled (text : string -> markup) (names : list string) (divs : list Div) : Prop :=
  map className divs = map (fun _ => "swatch") names /\ map content divs = map text names.

(** Names for the examples: a hue, an offset declaration and a shade. *)
Definition some_names : list string :=
  ["--dh-color-blue-hue"; "--dh-color-blue-100-hsl"; "--dh-color-blue-100"].

(** All names are of the family [colorName]. *)
Definition one_family (colorName : string) (names : list string) : Prop :=
  Forall (fun p => Util.extractColorName (Some p) = Some colorName) names.

(** No element has a top margin. *)
Definition unspaced (divs : list Div) : Prop := Forall (fun d => marginTop d = None) divs.

(** Where a loop stands: at its first index, or after a name of the family. *)
Definition settled (colorName : string) (st : Util.state) (i : nat) : Prop :=
  i = 0%nat
  \/ exists q, Util.prevProperty st = Some q /\ Util.extractColorName (Some q) = Some colorName.

(** A family name under which [colorGroups] gets an own property. *)
Definition groupable (colorName : string) : Prop :=
  String.eqb colorName "__proto__" = false /\ Util.inherited colorName = false.

(** What the groups hold after the names [done]: members are names of
    their family with their computed value, and every such name is there. *)
Definition grouped (getValue : string -> string) (done : list string) (gs : Util.groups) : Prop :=
  (forall colorName group p v,
     In (colorName, group) (Util.own gs) -> In (p, v) group ->
     In p done /\ Re.color_prop p = Some colorName /\ v = getValue p /\ groupable colorName)
  /\ (forall colorName p,
        In p done -> Re.color_prop p = Some colorName -> groupable colorName ->
        exists group,
          Obj.get (Util.own gs) colorName = Some group
          /\ Obj.get group p = Some (getValue p)).

(** A gray family with a pure black member, for the examples. *)
Definition grays : list string := ["--dh-color-gray-900"; "--dh-color-gray-500"].

(** A colour in six-digit hex notation. *)
Definition hex6 (c1 c2 c3 c4 c5 c6 : ascii) : string :=
  String "#" (String c1 (String c2 (String c3 (String c4 (String c5 (String c6 "")))))).

(** The heading both pages append for a path. *)
Definition heading (cssPath : string) : node :=
  H1 (Js.slice cssPath (Js.lastIndexOf cssPath "/" + 1)).

End Spec.

(** * Properties *)

Import Dom.
Import Spec.

(** ** Facts about strings *)

Section StringFacts.

Lemma append_assoc (a b c : string) : (a ++ b) ++ c = a ++ (b ++ c).
Proof. induction a as [|x a IH]; simpl; [reflexivity | now rewrite IH]. Qed.

Lemma length_append (a b : string) :
  String.length (a ++ b) = (String.length a + String.length b)%nat.
Proof. induction a as [|x a IH]; simpl; [reflexivity | now rewrite IH]. Qed.

Lemma substring_split (s : string) (k : nat) :
  (k <= String.length s)%nat ->
  s = String.substring 0 k s ++ String.substring k (String.length s - k) s.
Proof.
  revert k. induction s as [|c s IH]; intros k Hk.
  - destruct k; [reflexivity | simpl in Hk; lia].
  - destruct k as [|k].
    + simpl. f_equal. clear. induction s as [|d s IH]; simpl; [reflexivity | now f_equal].
    + simpl in Hk. simpl. f_equal. apply IH. lia.
Qed.

Lemma endsWith_append (s p : string) :
  Js.endsWith s p = true -> exists pre, s = pre ++ p.
Proof.
  unfold Js.endsWith. intros H.
  apply andb_true_iff in H as [Hlen Heq].
  apply Nat.leb_le in Hlen. apply String.eqb_eq in Heq.
  exists (String.substring 0 (String.length s - String.length p) s).
  pose proof (substring_split s (String.length s - String.length p)) as H.
  replace (String.length s - (String.length s - String.length p))%nat
    with (String.length p) in H by lia.
  rewrite Heq in H. apply H. lia.
Qed.

Lemma last_char_append (a p : string) :
  p <> "" -> Spec.last_char (a ++ p) = Spec.last_char p.
Proof.
  intros Hp. induction a as [|c a IH]; [reflexivity|].
  simpl. destruct (a ++ p) eqn:E.
  - destruct a; simpl in E; [contradiction | discriminate].
  - exact IH.
Qed.

Lemma endsWith_last_char (s p : string) :
  p <> "" -> Js.endsWith s p = true -> Spec.last_char s = Spec.last_char p.
Proof.
  intros Hp H. destruct (endsWith_append _ _ H) as [pre ->].
  now apply last_char_append.
Qed.

Lemma weight_shape (s w : string) :
  Re.weight s = Some w ->
  exists pre, s = pre ++ String "-" w /\ w <> "" /\ Js.forall_string Js.is_digit w = true.
Proof.
  induction s as [|c s IH]; simpl; [discriminate|].
  destruct (Ascii.eqb c "-" && negb (String.eqb s "") && Js.forall_string Js.is_digit s) eqn:E.
  - intros [= <-].
    apply andb_true_iff in E as [E Hd]. apply andb_true_iff in E as [Hc Hne].
    apply Ascii.eqb_eq in Hc. subst c.
    exists "". repeat split; [|exact Hd].
    intros ->. discriminate.
  - intros H. destruct (IH H) as (pre & -> & Hne & Hd).
    exists (String c pre). auto.
Qed.

Lemma last_char_forall (p : ascii -> bool) (w : string) :
  w <> "" -> Js.forall_string p w = true ->
  exists c, Spec.last_char w = Some c /\ p c = true.
Proof.
  induction w as [|c w IH]; [contradiction|].
  intros _ H. simpl in H. apply andb_true_iff in H as [Hc Hw].
  destruct w as [|d w].
  - exists c. auto.
  - destruct IH as (x & Hx & Hp); [discriminate | exact Hw |].
    exists x. split; [exact Hx | exact Hp].
Qed.

(** A name with a numeric suffix ends in a digit, hence in no literal that
    ends in a letter. *)
Lemma weight_not_ends (s w suffix : string) (c : ascii) :
  Re.weight s = Some w ->
  Spec.last_char suffix = Some c -> Js.is_digit c = false ->
  Js.endsWith s suffix = false.
Proof.
  intros Hw Hs Hc.
  destruct (Js.endsWith s suffix) eqn:E; [|reflexivity].
  destruct (weight_shape _ _ Hw) as (pre & -> & Hne & Hd).
  assert (Hsuf : suffix <> "") by (intros ->; discriminate).
  pose proof (endsWith_last_char _ _ Hsuf E) as HL.
  rewrite last_char_append in HL by discriminate.
  destruct (last_char_forall _ _ Hne Hd) as (x & Hx & Hdx).
  assert (HL' : Spec.last_char (String "-" w) = Spec.last_char w).
  { destruct w; [contradiction | reflexivity]. }
  rewrite HL', Hx, Hs in HL. injection HL as ->. congruence.
Qed.

Lemma substring_all (s : string) : String.substring 0 (String.length s) s = s.
Proof. induction s as [|c s IH]; simpl; [reflexivity | now rewrite IH]. Qed.

Lemma substring_skip (y p : string) (k : nat) :
  String.substring (String.length y) k (y ++ p) = String.substring 0 k p.
Proof. induction y as [|c y IH]; simpl; [reflexivity | exact IH]. Qed.

Lemma endsWith_append_r (y p : string) : Js.endsWith (y ++ p) p = true.
Proof.
  unfold Js.endsWith. rewrite length_append.
  replace (String.length y + String.length p - String.length p)%nat
    with (String.length y) by lia.
  rewrite substring_skip, substring_all, String.eqb_refl.
  apply andb_true_iff. split; [apply Nat.leb_le; lia | reflexivity].
Qed.

Lemma substring_take (y p : string) :
  String.substring 0 (String.length y) (y ++ p) = y.
Proof.
  induction y as [|c y IH]; simpl.
  - destruct p; reflexivity.
  - now rewrite IH.
Qed.

Lemma dropEnd_append (y p : string) : Js.dropEnd (y ++ p) (String.length p) = y.
Proof.
  unfold Js.dropEnd. rewrite length_append.
  replace (String.length y + String.length p - String.length p)%nat
    with (String.length y) by lia.
  apply substring_take.
Qed.

End StringFacts.

(** ** [rgbToHsl] *)

(** C5.  [rgbToHsl] maps the primary colours [rgb(255 0 0)], [rgb(0 255 0)]
    and [rgb(0 0 255)] to [hsl(0deg 100% 50%)], [hsl(120deg 100% 50%)] and
    [hsl(240deg 100% 50%)]. *)
Theorem rgbToHsl_primary_colors :
  Util.rgbToHsl "rgb(255 0 0)" = "hsl(0deg 100% 50%)"
  /\ Util.rgbToHsl "rgb(0 255 0)" = "hsl(120deg 100% 50%)"
  /\ Util.rgbToHsl "rgb(0 0 255)" = "hsl(240deg 100% 50%)".
Proof. repeat split; vm_compute; reflexivity. Qed.

(** C1, at its two failing inputs.  For black and for white the saturation
    is the quotient 0 / 0: both revisions of [rgbToHsl] answer [NaN%] where
    gray invariance asks for [0%]. *)
Theorem rgbToHsl_black_and_white :
  Util.rgbToHsl (Spec.gray 0) = "hsl(0deg NaN% 0%)"
  /\ Util.rgbToHsl (Spec.gray 255) = "hsl(0deg NaN% 100%)"
  /\ Part000.rgbToHsl (Spec.gray 0) = "hsl(0deg NaN% 0%)"
  /\ Part000.rgbToHsl (Spec.gray 255) = "hsl(0deg NaN% 100%)".
Proof. repeat split; vm_compute; reflexivity. Qed.

(** The grays 1..254, checked one by one in both revisions. *)
Lemma grays_checked :
  forallb (fun n => gray_ok Util.rgbToHsl (Z.of_nat n) && gray_ok Part000.rgbToHsl (Z.of_nat n))
    (seq 1 254) = true.
Proof. vm_compute. reflexivity. Qed.

(** Every other gray has hue 0 and saturation 0%, in both revisions. *)
Lemma rgbToHsl_gray_inside (v : Z) :
  (1 <= v <= 254)%Z ->
  gray_ok Util.rgbToHsl v = true /\ gray_ok Part000.rgbToHsl v = true.
Proof.
  intros Hv.
  pose proof grays_checked as H.
  rewrite forallb_forall in H.
  specialize (H (Z.to_nat v)).
  rewrite Z2Nat.id in H by lia.
  apply andb_true_iff. apply H.
  apply in_seq. lia.
Qed.

(** ** Objects *)

Section ObjFacts.

Context {A : Type}.

Lemma get_set_same (o : Obj.t A) (k : string) (v : A) :
  Obj.get (Obj.set o k v) k = Some v.
Proof.
  induction o as [|[k' v'] o IH]; simpl.
  - now rewrite String.eqb_refl.
  - destruct (String.eqb k' k) eqn:E; simpl; rewrite E; [reflexivity | exact IH].
Qed.

Lemma get_set_other (o : Obj.t A) (k k' : string) (v : A) :
  k <> k' -> Obj.get (Obj.set o k v) k' = Obj.get o k'.
Proof.
  intros Hk. induction o as [|[k0 v0] o IH]; simpl.
  - apply String.eqb_neq in Hk. now rewrite Hk.
  - destruct (String.eqb k0 k) eqn:E; simpl.
    + apply String.eqb_eq in E. subst k0.
      apply String.eqb_neq in Hk. now rewrite Hk.
    + destruct (String.eqb k0 k'); [reflexivity | exact IH].
Qed.

Lemma in_set (o : Obj.t A) (k : string) (v : A) (e : string * A) :
  In e (Obj.set o k v) -> e = (k, v) \/ In e o.
Proof.
  induction o as [|[k' v'] o IH]; simpl.
  - intros [<- | []]. now left.
  - destruct (String.eqb k' k) eqn:E; simpl.
    + apply String.eqb_eq in E. subst k'. intros [<- | H]; auto.
    + intros [<- | H]; auto. destruct (IH H); auto.
Qed.

Lemma in_keys_set (o : Obj.t A) (k k' : string) (v : A) :
  In k' (map fst (Obj.set o k v)) -> k' = k \/ In k' (map fst o).
Proof.
  intros H. apply in_map_iff in H as ([k0 v0] & <- & H).
  destruct (in_set _ _ _ _ H) as [[= -> ->] | H']; [now left|].
  right. now apply (in_map fst) in H'.
Qed.

Lemma set_NoDup (o : Obj.t A) (k : string) (v : A) :
  NoDup (map fst o) -> NoDup (map fst (Obj.set o k v)).
Proof.
  induction o as [|[k' v'] o IH]; simpl; intros H.
  - constructor; [intros [] | constructor].
  - inversion H as [|? ? Hn Hd]; subst.
    destruct (String.eqb k' k) eqn:E; simpl.
    + constructor; assumption.
    + constructor; [|now apply IH].
      intros Hin. apply in_keys_set in Hin as [-> | Hin]; [|contradiction].
      rewrite String.eqb_refl in E. discriminate.
Qed.

Lemma get_in (o : Obj.t A) (k : string) (v : A) :
  Obj.get o k = Some v -> In (k, v) o.
Proof.
  induction o as [|[k' v'] o IH]; simpl; [discriminate|].
  destruct (String.eqb k' k) eqn:E.
  - apply String.eqb_eq in E. subst k'. intros [= ->]. now left.
  - intros H. right. now apply IH.
Qed.

Lemma in_get (o : Obj.t A) (k : string) (v : A) :
  NoDup (map fst o) -> In (k, v) o -> Obj.get o k = Some v.
Proof.
  induction o as [|[k' v'] o IH]; simpl; [intros _ []|].
  intros H Hin. inversion H as [|? ? Hn Hd]; subst.
  destruct Hin as [[= -> ->] | Hin].
  - now rewrite String.eqb_refl.
  - destruct (String.eqb k' k) eqn:E; [|now apply IH].
    apply String.eqb_eq in E. subst k'.
    exfalso. apply Hn. now apply (in_map fst) in Hin.
Qed.

Lemma in_insert_index (z : Z) (e : string * A) (l : list (Z * (string * A))) (x : Z * (string * A)) :
  In x (Obj.insert_index z e l) <-> x = (z, e) \/ In x l.
Proof.
  induction l as [|[z' e'] l IH]; simpl.
  - intuition congruence.
  - destruct (z <? z')%Z; simpl; [intuition congruence|].
    rewrite IH. intuition congruence.
Qed.

Lemma in_index_entries (o : Obj.t A) (e : string * A) :
  In e (map snd (Obj.index_entries o))
  <-> In e o /\ exists z, Obj.array_index (fst e) = Some z.
Proof.
  induction o as [|[k v] o IH]; simpl.
  - split; [intros [] | intros [[] _]].
  - destruct (Obj.array_index k) as [z|] eqn:E.
    + rewrite in_map_iff. split.
      * intros (x & <- & Hx). apply in_insert_index in Hx as [-> | Hx]; simpl.
        -- split; [now left | now exists z].
        -- assert (Hs : In (snd x) (map snd (Obj.index_entries o))) by now apply in_map.
           apply IH in Hs as [Hin Hz]. split; [now right | exact Hz].
      * intros [[<- | Hin] Hz].
        -- exists (z, (k, v)). split; [reflexivity|]. apply in_insert_index. now left.
        -- assert (Hs : In e (map snd (Obj.index_entries o))) by (apply IH; auto).
           apply in_map_iff in Hs as (x & <- & Hx).
           exists x. split; [reflexivity|]. apply in_insert_index. now right.
    + rewrite IH. split.
      * intros [Hin Hz]. split; [now right | exact Hz].
      * intros [[<- | Hin] Hz]; [|split; assumption].
        simpl in Hz. destruct Hz as [z Hz]. congruence.
Qed.

Lemma in_entries (o : Obj.t A) (e : string * A) : In e (Obj.entries o) <-> In e o.
Proof.
  unfold Obj.entries, Obj.named_entries. rewrite in_app_iff, in_index_entries, filter_In.
  destruct (Obj.array_index (fst e)) as [z|] eqn:E.
  - split; [intros [[H _] | [_ H]]; [exact H | discriminate] | intros H; left; split; eauto].
  - split; [intros [[_ [z Hz]] | [H _]]; [discriminate | exact H] | intros H; right; auto].
Qed.

(** Assigning [o[key x] = val x] for the elements of a list: the property
    [k] ends with the value all elements with that key agree on. *)
Lemma fold_set_get {B : Type} (key : B -> string) (val : B -> A)
  (l : list B) (k : string) (v : A) :
  (forall x, In x l -> key x = k -> val x = v) ->
  forall acc,
    (exists x, In x l /\ key x = k) \/ Obj.get acc k = Some v ->
    Obj.get (fold_left (fun o x => Obj.set o (key x) (val x)) l acc) k = Some v.
Proof.
  induction l as [|y l IH]; intros Hall acc H; simpl.
  - destruct H as [(x & [] & _) | H]; exact H.
  - apply IH; [intros x Hx; apply Hall; now right|].
    destruct (string_dec (key y) k) as [E | E].
    + right. rewrite E, get_set_same. f_equal. apply Hall; [now left | exact E].
    + destruct H as [(x & [-> | Hx] & Hk) | H].
      * contradiction.
      * left. now exists x.
      * right. now rewrite get_set_other.
Qed.

End ObjFacts.

(** ** The stylesheet lookup *)

Lemma find_none_forall {A} (p : A -> bool) (l : list A) :
  (forall x, In x l -> p x = false) -> find p l = None.
Proof.
  induction l as [|a l IH]; intros H; [reflexivity|].
  simpl. rewrite (H a (or_introl eq_refl)). apply IH. intros x Hx. apply H. now right.
Qed.

Lemma find_first {A} (p : A -> bool) (pre post : list A) (x : A) :
  (forall y, In y pre -> p y = false) -> p x = true ->
  find p (pre ++ x :: post)%list = Some x.
Proof.
  induction pre as [|a pre IH]; intros Hpre Hx; simpl.
  - now rewrite Hx.
  - rewrite (Hpre a (or_introl eq_refl)). apply IH; [|exact Hx].
    intros y Hy. apply Hpre. now right.
Qed.

Lemma hrefMatches_served_at (cssPath : string) (sheet : CSSStyleSheet) :
  Util.hrefMatches cssPath sheet = true <-> served_at cssPath sheet.
Proof.
  unfold Util.hrefMatches, served_at. destruct (href sheet) as [h|]; split.
  - intros H. destruct (endsWith_append _ _ H) as [dir ->]. now exists dir.
  - intros [dir [= ->]]. apply endsWith_append_r.
  - discriminate.
  - intros [dir H]. discriminate H.
Qed.

Lemma hrefMatches_not_served_at (cssPath : string) (sheet : CSSStyleSheet) :
  Util.hrefMatches cssPath sheet = false <-> ~ served_at cssPath sheet.
Proof.
  rewrite <- hrefMatches_served_at. destruct (Util.hrefMatches cssPath sheet); split;
    congruence.
Qed.

(** C7, amended.  A sheet is the requested one when its address ends in a
    slash followed by the requested path.  When no loaded sheet is,
    [getCssPropertyNames] throws [Error("No style sheet found")].  When
    some sheet is, that error is not thrown, and the custom properties of
    the first rule of the first such sheet are the result. *)
Theorem getCssPropertyNames_not_found_iff
  (styleSheets : list CSSStyleSheet) (cssPath : string) :
  ((forall sheet, In sheet styleSheets -> ~ served_at cssPath sheet) ->
   Util.getCssPropertyNames styleSheets cssPath = Throw (Error "No style sheet found"))
  /\
  (forall pre sheet post,
     styleSheets = (pre ++ sheet :: post)%list ->
     (forall other, In other pre -> ~ served_at cssPath other) ->
     served_at cssPath sheet ->
     Util.getCssPropertyNames styleSheets cssPath <> Throw (Error "No style sheet found")
     /\ forall rule rules names,
          cssRules sheet = rule :: rules -> style rule = Some names ->
          Util.getCssPropertyNames styleSheets cssPath
          = Normal (filter (fun property => Js.startsWith property "--") names)).
Proof.
  split.
  - intros H. unfold Util.getCssPropertyNames. rewrite find_none_forall; [reflexivity|].
    intros sheet Hin. apply hrefMatches_not_served_at. now apply H.
  - intros pre sheet post -> Hpre Hsheet.
    assert (Hfind : find (Util.hrefMatches cssPath) (pre ++ sheet :: post)%list = Some sheet).
    { apply find_first.
      - intros other Hin. apply hrefMatches_not_served_at. now apply Hpre.
      - now apply hrefMatches_served_at. }
    unfold Util.getCssPropertyNames. rewrite Hfind.
    split.
    + destruct (cssRules sheet) as [|rule rules]; [discriminate|].
      destruct (style rule); discriminate.
    + intros rule rules names -> ->. reflexivity.
Qed.

Lemma getCssPropertyNames_not_found_iff_witness :
  Util.getCssPropertyNames sheets "themes/hsl.css" = Throw (Error "No style sheet found")
  /\ Util.getCssPropertyNames sheets "themes/hex.css"
     = Normal ["--dh-color-blue-100"; "--dh-color-blue-hue"].
Proof.
  split.
  - apply (proj1 (getCssPropertyNames_not_found_iff sheets "themes/hsl.css")).
    intros sheet [<- | [<- | []]]; apply hrefMatches_not_served_at; reflexivity.
  - refine (proj2 (proj2 (getCssPropertyNames_not_found_iff sheets "themes/hex.css")
                     [ {| href := None; cssRules := [] |} ] _ [] eq_refl _ _) _ _ _ eq_refl eq_refl).
    + intros other [<- | []]; apply hrefMatches_not_served_at; reflexivity.
    + now exists "http://localhost".
Defined.

(** C7 as stated fails: an address can end in the requested path without a
    slash before it, and the sheet is then not found. *)
Lemma suffix_match_is_not_found :
  suffix_matches "a.css"
    {| href := Some "http://h/xa.css"; cssRules := [ {| style := Some ["--a"] |} ] |}
  /\ Util.getCssPropertyNames
       [ {| href := Some "http://h/xa.css"; cssRules := [ {| style := Some ["--a"] |} ] |} ]
       "a.css"
     = Throw (Error "No style sheet found").
Proof. split; [now exists "http://h/x" | reflexivity]. Qed.

(** ** The swatch builder *)

Lemma callback_within (cs : ComputedStyle) (c : list Div) (st : Util.state)
  (property : string) (i : nat) :
  Util.callback cs (within c st) property i
  = (within c (fst (Util.callback cs st property i)), snd (Util.callback cs st property i)).
Proof.
  unfold Util.callback, within. simpl.
  destruct (Js.endsWith property "-hsl"); [reflexivity|].
  destruct (Re.ends "-hue" (Some property)); simpl.
  - now rewrite app_assoc.
  - destruct (Util.rgbaToHex8 _); simpl; now rewrite app_assoc.
Qed.

Lemma forEach_within (cs : ComputedStyle) (c : list Div) (names : list string) :
  forall (st : Util.state) (i : nat),
    Util.forEach (Util.callback cs) (within c st) names i
    = (within c (fst (Util.forEach (Util.callback cs) st names i)),
       snd (Util.forEach (Util.callback cs) st names i)).
Proof.
  induction names as [|property rest IH]; intros st i; simpl.
  - reflexivity.
  - rewrite callback_within.
    destruct (Util.callback cs st property i) as [st' [[]| e |]]; simpl.
    + apply IH.
    + reflexivity.
    + reflexivity.
Qed.

Lemma buildSwatches_appends (cs : ComputedStyle) (c : list Div) (names : list string) :
  Util.buildSwatches cs c names
  = ((c ++ fst (Util.buildSwatches cs [] names))%list, snd (Util.buildSwatches cs [] names)).
Proof.
  unfold Util.buildSwatches.
  pose proof (forEach_within cs c names
                {| Util.children := []; Util.prevProperty := None |} 0) as H.
  unfold within in H at 1. simpl in H. rewrite app_nil_r in H. rewrite H. clear H.
  destruct (Util.forEach (Util.callback cs) _ names 0) as [st r]. reflexivity.
Qed.

(** C9.  [buildSwatches] carries nothing from one call to the next: run on
    a container, it appends a list of swatches; run again on the result with
    the same names and the same resolved values, it appends the same list,
    with the same text and styling, and ends the same way. *)
Theorem buildSwatches_twice (cs : ComputedStyle) (containerEl : list Div)
  (cssPropertyNames : list string) :
  exists swatches : list Div,
    fst (Util.buildSwatches cs containerEl cssPropertyNames) = (containerEl ++ swatches)%list
    /\ fst (Util.buildSwatches cs (containerEl ++ swatches)%list cssPropertyNames)
       = ((containerEl ++ swatches) ++ swatches)%list
    /\ snd (Util.buildSwatches cs (containerEl ++ swatches)%list cssPropertyNames)
       = snd (Util.buildSwatches cs containerEl cssPropertyNames).
Proof.
  exists (fst (Util.buildSwatches cs [] cssPropertyNames)).
  rewrite (buildSwatches_appends cs containerEl).
  rewrite (buildSwatches_appends cs (containerEl ++ _)%list).
  simpl. auto.
Qed.

Lemma hue_not_hsl (property : string) :
  Re.ends "-hue" (Some property) = true -> Js.endsWith property "-hsl" = false.
Proof.
  unfold Re.ends. simpl. intros H.
  destruct (Js.endsWith property "-hsl") eqn:E; [|reflexivity].
  apply endsWith_last_char in H; [|discriminate].
  apply endsWith_last_char in E; [|discriminate].
  rewrite H in E. discriminate.
Qed.

Lemma weight_rendered (property w : string) :
  Re.weight property = Some w ->
  Js.endsWith property "-hsl" = false /\ Re.ends "-hue" (Some property) = false.
Proof.
  intros H. split.
  - apply (weight_not_ends property w "-hsl" "l" H); reflexivity.
  - apply (weight_not_ends property w "-hue" "e" H); reflexivity.
Qed.

Lemma Util_foreground_threshold (property w : string) :
  Re.weight property = Some w -> Util.foreground property = threshold w.
Proof.
  intros H. unfold Util.foreground, threshold. rewrite H.
  destruct (Z.ltb_spec (Js.digits_value 10 w) 700), (Z.leb_spec 700 (Js.digits_value 10 w));
    try reflexivity; lia.
Qed.

(** C4.  For a property name with a numeric suffix, the three swatch loops
    ([util.js], its earlier revision, [iframe.js]) set the same foreground:
    the light [--dh-color-gray-75] when the suffix is 700 or more, the dark
    [--dh-color-gray-800] when it is less. *)
Theorem foreground_by_shade_weight (cs : ComputedStyle) (st : Util.state)
  (property w : string) (i : nat) :
  Re.weight property = Some w ->
  (exists div,
     Util.children (fst (Util.callback cs st property i)) = (Util.children st ++ [div])%list
     /\ color div = Some (threshold w))
  /\ (exists div,
        Util.children (Part000.callback cs st property i) = (Util.children st ++ [div])%list
        /\ color div = Some (threshold w))
  /\ (exists div,
        Util.children (Iframe.callback cs st property i) = (Util.children st ++ [div])%list
        /\ color div = Some (threshold w)).
Proof.
  intros H. destruct (weight_rendered _ _ H) as [Hhsl Hhue].
  repeat split.
  - unfold Util.callback. rewrite Hhsl, Hhue, (Util_foreground_threshold _ _ H).
    destruct (Util.rgbaToHex8 _); eexists; split; reflexivity.
  - unfold Part000.callback, Part000.foreground. rewrite Hhue, H.
    eexists; split; reflexivity.
  - unfold Iframe.callback, Iframe.foreground. rewrite Hhue, H.
    eexists; split; reflexivity.
Qed.

Lemma foreground_by_shade_weight_witness :
  threshold "700" = "var(--dh-color-gray-75)"
  /\ threshold "600" = "var(--dh-color-gray-800)"
  /\ (exists div,
        Util.children (fst (Util.callback Spec.demo
                              {| Util.children := []; Util.prevProperty := None |}
                              "--dh-color-blue-700" 0)) = [div]
        /\ color div = Some (threshold "700")).
Proof.
  split; [reflexivity|]. split; [reflexivity|].
  exact (proj1 (foreground_by_shade_weight Spec.demo
                  {| Util.children := []; Util.prevProperty := None |}
                  "--dh-color-blue-700" "700" 0 eq_refl)).
Defined.

(** C10.  In [util.js] a property whose name ends in [-hsl] leaves the
    state of the loop as it was: no element, and [prevProperty] unchanged, so
    the loop goes on as if from the next index.  A property that is rendered
    gets as background [var(...)] of its name: the replacement strips a
    trailing [-hsl], and the name of a rendered property has none. *)
Theorem hsl_properties_are_skipped (cs : ComputedStyle) (st : Util.state)
  (property : string) (i : nat) :
  (Js.endsWith property "-hsl" = true ->
   Util.callback cs st property i = (st, Normal tt)
   /\ forall rest,
        Util.forEach (Util.callback cs) st (property :: rest) i
        = Util.forEach (Util.callback cs) st rest (S i))
  /\ (Js.endsWith property "-hsl" = false -> Re.ends "-hue" (Some property) = false ->
      exists div,
        Util.children (fst (Util.callback cs st property i)) = (Util.children st ++ [div])%list
        /\ backgroundColor div = Some ("var(" ++ property ++ ")"))
  /\ (forall name, Util.strip_hsl (name ++ "-hsl") = name).
Proof.
  split; [|split].
  - intros H.
    assert (Hc : Util.callback cs st property i = (st, Normal tt))
      by (unfold Util.callback; now rewrite H).
    split; [exact Hc|]. intros rest. simpl. now rewrite Hc.
  - intros Hhsl Hhue.
    assert (Hstrip : Util.strip_hsl property = property).
    { unfold Util.strip_hsl, Re.ends, Re.subject. now rewrite Hhsl. }
    unfold Util.callback. rewrite Hhsl, Hhue, Hstrip.
    destruct (Util.rgbaToHex8 _); eexists; split; reflexivity.
  - intros name. unfold Util.strip_hsl, Re.ends, Re.subject.
    rewrite endsWith_append_r. apply (dropEnd_append name "-hsl").
Qed.

Lemma buildSwatches_single (cs : ComputedStyle) (property : string) :
  fst (Util.buildSwatches cs [] [property])
  = Util.children (fst (Util.callback cs {| Util.children := []; Util.prevProperty := None |}
                          property 0)).
Proof.
  unfold Util.buildSwatches, Util.forEach.
  destruct (Util.callback cs _ property 0) as [st' [[]| |]]; reflexivity.
Qed.

Lemma hsl_properties_are_skipped_witness :
  Util.callback Spec.demo {| Util.children := []; Util.prevProperty := None |}
    "--dh-color-blue-100-hsl" 0
  = ({| Util.children := []; Util.prevProperty := None |}, Normal tt)
  /\ exists div,
       fst (Util.buildSwatches Spec.demo [] ["--dh-color-blue-100"]) = [div]
       /\ backgroundColor div = Some ("var(" ++ "--dh-color-blue-100" ++ ")").
Proof.
  split.
  - exact (proj1 (proj1 (hsl_properties_are_skipped Spec.demo
                           {| Util.children := []; Util.prevProperty := None |}
                           "--dh-color-blue-100-hsl" 0) eq_refl)).
  - rewrite buildSwatches_single.
    exact (proj1 (proj2 (hsl_properties_are_skipped Spec.demo
                           {| Util.children := []; Util.prevProperty := None |}
                           "--dh-color-blue-100" 0)) eq_refl eq_refl).
Defined.

(** C8, amended.  For a property whose name ends in [-hue] each loop still
    appends an element with the class and the label, but sets no background,
    no foreground and no tooltip on it; the property becomes [prevProperty],
    and the swatch after it gets no extra spacing. *)
Theorem hue_properties_are_not_coloured (cs : ComputedStyle) (st : Util.state)
  (property : string) (i : nat) :
  Re.ends "-hue" (Some property) = true ->
  Util.callback cs st property i
  = ({| Util.children :=
          (Util.children st
           ++ [uncoloured (InnerHTML (Util.label cs property))
                 (if Util.spaced i (Util.prevProperty st) property then Some "40px" else None)])%list;
        Util.prevProperty := Some property |}, Normal tt)
  /\ Part000.callback cs st property i
     = {| Util.children :=
            (Util.children st
             ++ [uncoloured (InnerHTML (Part000.label cs property))
                   (if Util.spaced i (Util.prevProperty st) property then Some "40px" else None)])%list;
          Util.prevProperty := Some property |}
  /\ Iframe.callback cs st property i
     = {| Util.children :=
            (Util.children st
             ++ [uncoloured (InnerText (property ++ ": " ++ getPropertyValue cs property))
                   (if Iframe.spaced i (Util.prevProperty st) property then Some "40px" else None)])%list;
          Util.prevProperty := Some property |}
  /\ forall next j,
       Util.spaced j (Some property) next = false
       /\ Iframe.spaced j (Some property) next = false.
Proof.
  intros H. repeat split.
  - unfold Util.callback. now rewrite (hue_not_hsl _ H), H.
  - unfold Part000.callback. now rewrite H.
  - unfold Iframe.callback. now rewrite H.
  - unfold Util.spaced. rewrite H. simpl. now rewrite andb_false_r.
  - unfold Iframe.spaced. rewrite H. simpl. now rewrite andb_false_r.
Qed.

Lemma hue_properties_are_not_coloured_witness :
  Part000.callback Spec.demo {| Util.children := []; Util.prevProperty := None |}
    "--dh-color-blue-hue" 0
  = {| Util.children :=
         [uncoloured (InnerHTML (Part000.label Spec.demo "--dh-color-blue-hue")) None];
       Util.prevProperty := Some "--dh-color-blue-hue" |}.
Proof.
  exact (proj1 (proj2 (hue_properties_are_not_coloured Spec.demo
                         {| Util.children := []; Util.prevProperty := None |}
                         "--dh-color-blue-hue" 0 eq_refl))).
Defined.

(** C8 as stated fails: a hue property does produce an element, with its
    label. *)
Lemma hue_property_gets_an_element :
  Re.ends "-hue" (Some "--dh-color-blue-hue") = true
  /\ exists html,
       Util.buildSwatches Spec.demo [] ["--dh-color-blue-hue"]
       = ([uncoloured (InnerHTML html) None], Normal tt)
       /\ Js.startsWith html "--dh-color-blue-hue: #123456" = true.
Proof.
  split; [reflexivity|].
  eexists. split; vm_compute; reflexivity.
Qed.

(** ** Hex to RGB and back *)

Lemma prefix_append (p x : string) : String.prefix p (p ++ x) = true.
Proof.
  induction p as [|c p IH]; simpl; [destruct x; reflexivity|].
  destruct (ascii_dec c c); [exact IH | contradiction].
Qed.

Lemma strip_prefix_append (p x : string) : Re.strip_prefix p (p ++ x) = Some x.
Proof.
  unfold Re.strip_prefix, Js.startsWith. rewrite prefix_append, length_append.
  replace (String.length p + String.length x - String.length p)%nat
    with (String.length x) by lia.
  now rewrite substring_skip, substring_all.
Qed.

Lemma forall_string_append (p : ascii -> bool) (a b : string) :
  Js.forall_string p (a ++ b) = Js.forall_string p a && Js.forall_string p b.
Proof. induction a as [|c a IH]; simpl; [reflexivity | now rewrite IH, andb_assoc]. Qed.

Lemma forall_string_impl (p q : ascii -> bool) (s : string) :
  (forall c, p c = true -> q c = true) ->
  Js.forall_string p s = true -> Js.forall_string q s = true.
Proof.
  intros Hpq. induction s as [|c s IH]; simpl; [reflexivity|].
  intros H. apply andb_true_iff in H as [Hc Hs].
  now rewrite (Hpq c Hc), (IH Hs).
Qed.

Lemma digit_not_delimiter (c : ascii) :
  Js.is_digit c = true -> negb (Util.delimiter c) = true.
Proof.
  destruct c as [[] [] [] [] [] [] [] []]; try discriminate; reflexivity.
Qed.

Lemma digit_not_line_terminator (c : ascii) :
  Js.is_digit c = true -> negb (Js.is_line_terminator c) = true.
Proof.
  destruct c as [[] [] [] [] [] [] [] []]; try discriminate; reflexivity.
Qed.

Lemma split_token (t rest : string) :
  Js.forall_string (fun c => negb (Util.delimiter c)) t = true ->
  Util.split (t ++ String " " rest) = t :: Util.split rest.
Proof.
  induction t as [|c t IH]; simpl; [reflexivity|].
  intros H. apply andb_true_iff in H as [Hc Ht].
  apply negb_true_iff in Hc. rewrite Hc, (IH Ht). reflexivity.
Qed.

Lemma split_last (t : string) :
  Js.forall_string (fun c => negb (Util.delimiter c)) t = true ->
  Util.split t = [t].
Proof.
  induction t as [|c t IH]; simpl; [reflexivity|].
  intros H. apply andb_true_iff in H as [Hc Ht].
  apply negb_true_iff in Hc. rewrite Hc, (IH Ht). reflexivity.
Qed.

(** [parseRgba] on the output format of [hexToRgb]. *)
Lemma parseRgba_of_digits (rs gs bs : string) :
  rs <> "" -> gs <> "" -> bs <> "" ->
  Js.forall_string Js.is_digit rs = true ->
  Js.forall_string Js.is_digit gs = true ->
  Js.forall_string Js.is_digit bs = true ->
  Util.parseRgba ("rgb(" ++ rs ++ " " ++ gs ++ " " ++ bs ++ ")")
  = Some {| Util.r := Js.StringToNumber rs; Util.g := Js.StringToNumber gs;
            Util.b := Js.StringToNumber bs; Util.a := PrimFloat.one |}.
Proof.
  intros Hr Hg Hb Dr Dg Db.
  unfold Util.parseRgba, Re.rgba_call.
  assert (E1 : Re.strip_prefix "rgba(" ("rgb(" ++ rs ++ " " ++ gs ++ " " ++ bs ++ ")") = None)
    by reflexivity.
  rewrite E1, strip_prefix_append.
  replace (rs ++ " " ++ gs ++ " " ++ bs ++ ")") with ((rs ++ " " ++ gs ++ " " ++ bs) ++ ")")
    by (now rewrite !append_assoc).
  rewrite endsWith_append_r.
  change 1%nat with (String.length ")"). rewrite dropEnd_append.
  assert (L : Js.forall_string (fun c => negb (Js.is_line_terminator c))
                (rs ++ " " ++ gs ++ " " ++ bs) = true).
  { rewrite !forall_string_append.
    rewrite (forall_string_impl _ _ rs digit_not_line_terminator Dr).
    rewrite (forall_string_impl _ _ gs digit_not_line_terminator Dg).
    rewrite (forall_string_impl _ _ bs digit_not_line_terminator Db).
    reflexivity. }
  rewrite L. cbn [andb].
  change (rs ++ " " ++ gs ++ " " ++ bs)
    with (rs ++ String " " (gs ++ String " " bs)).
  rewrite split_token by exact (forall_string_impl _ _ rs digit_not_delimiter Dr).
  rewrite split_token by exact (forall_string_impl _ _ gs digit_not_delimiter Dg).
  rewrite split_last by exact (forall_string_impl _ _ bs digit_not_delimiter Db).
  cbn [filter].
  destruct rs; [contradiction|]. destruct gs; [contradiction|]. destruct bs; [contradiction|].
  reflexivity.
Qed.

Lemma in_all_chars (c : ascii) : In c all_chars.
Proof.
  unfold all_chars. rewrite <- (ascii_nat_embedding c).
  apply in_map, in_seq. pose proof (nat_ascii_bounded c). lia.
Qed.

(** The 22 * 22 pairs of hex digits, checked one by one. *)
Lemma channels_checked :
  forallb (fun c1 => forallb (channel_ok c1) hex_chars) hex_chars = true.
Proof. vm_compute. reflexivity. Qed.

Lemma channel_facts (c1 c2 : ascii) :
  Spec.hex_digit c1 = true -> Spec.hex_digit c2 = true ->
  channel c1 c2 <> ""
  /\ Js.forall_string Js.is_digit (channel c1 c2) = true
  /\ exists h,
       Js.Number_toString16 (Js.StringToNumber (channel c1 c2)) = Some h
       /\ Js.padStart0 h 2 = String (Js.toLowerCase_char c1) (String (Js.toLowerCase_char c2) "").
Proof.
  intros H1 H2.
  pose proof channels_checked as H. rewrite forallb_forall in H.
  assert (I1 : In c1 hex_chars) by (apply filter_In; split; [apply in_all_chars | exact H1]).
  assert (I2 : In c2 hex_chars) by (apply filter_In; split; [apply in_all_chars | exact H2]).
  specialize (H c1 I1). rewrite forallb_forall in H. specialize (H c2 I2).
  unfold channel_ok in H.
  apply andb_true_iff in H as [H Hh]. apply andb_true_iff in H as [Hne Hd].
  split; [|split; [exact Hd|]].
  - intros E. rewrite E in Hne. discriminate.
  - destruct (Js.Number_toString16 _) as [h|]; [|discriminate].
    exists h. split; [reflexivity | now apply String.eqb_eq].
Qed.

Lemma alpha_of_one :
  Js.Number_toString16 (Js.Math_round (PrimFloat.one * 255)%float) = Some "ff".
Proof. vm_compute. reflexivity. Qed.

Lemma hexToRgb_six (c1 c2 c3 c4 c5 c6 : ascii) :
  Util.hexToRgb (String "#" (String c1 (String c2 (String c3 (String c4 (String c5 (String c6 "")))))))
  = "rgb(" ++ channel c1 c2 ++ " " ++ channel c3 c4 ++ " " ++ channel c5 c6 ++ ")".
Proof. reflexivity. Qed.

(** C2, amended.  For six hex digits, [hexToRgb] followed by [parseRgba],
    [rgbaToHex8] and the RGB part of the result gives the digits back in
    lower case; digits without upper-case letters come back unchanged. *)
Theorem hex_rgb_hex_roundtrip (digits : string) :
  String.length digits = 6%nat ->
  Js.forall_string Spec.hex_digit digits = true ->
  Spec.hexToRgbToHex ("#" ++ digits) = Normal ("#" ++ Js.toLowerCase digits)
  /\ (Js.forall_string (fun c => negb (Js.is_upper c)) digits = true ->
      Spec.hexToRgbToHex ("#" ++ digits) = Normal ("#" ++ digits)).
Proof.
  intros Hlen Hhex.
  assert (Main : Spec.hexToRgbToHex ("#" ++ digits) = Normal ("#" ++ Js.toLowerCase digits)).
  { destruct digits as [|c1 [|c2 [|c3 [|c4 [|c5 [|c6 [|c7 rest]]]]]]]; try discriminate Hlen.
    cbn [Js.forall_string] in Hhex.
    repeat (apply andb_true_iff in Hhex as [? Hhex]).
    destruct (channel_facts c1 c2) as (N1 & D1 & h1 & T1 & P1); [assumption..|].
    destruct (channel_facts c3 c4) as (N2 & D2 & h2 & T2 & P2); [assumption..|].
    destruct (channel_facts c5 c6) as (N3 & D3 & h3 & T3 & P3); [assumption..|].
    unfold Spec.hexToRgbToHex.
    change ("#" ++ String c1 (String c2 (String c3 (String c4 (String c5 (String c6 ""))))))
      with (String "#" (String c1 (String c2 (String c3 (String c4 (String c5 (String c6 ""))))))).
    rewrite hexToRgb_six, parseRgba_of_digits by assumption.
    unfold Util.rgbaToHex8. cbn [Util.r Util.g Util.b Util.a].
    rewrite T1, T2, T3, alpha_of_one, P1, P2, P3.
    reflexivity. }
  split; [exact Main|].
  intros Hlow. rewrite Main. do 2 f_equal.
  clear -Hlow. induction digits as [|c s IH]; [reflexivity|].
  cbn [Js.forall_string] in Hlow. apply andb_true_iff in Hlow as [Hc Hs].
  unfold Js.toLowerCase in *. cbn [Js.map_string]. rewrite (IH Hs).
  unfold Js.toLowerCase_char. apply negb_true_iff in Hc. now rewrite Hc.
Qed.

Lemma hex_rgb_hex_roundtrip_witness :
  Spec.hexToRgbToHex "#0f172a" = Normal "#0f172a".
Proof.
  exact (proj2 (hex_rgb_hex_roundtrip "0f172a" eq_refl eq_refl) eq_refl).
Defined.

(** C2 as stated fails on upper-case digits. *)
Lemma hex_roundtrip_lowers_case :
  String.length "AABBCC" = 6%nat
  /\ Js.forall_string Spec.hex_digit "AABBCC" = true
  /\ Spec.hexToRgbToHex "#AABBCC" = Normal "#aabbcc"
  /\ Spec.hexToRgbToHex "#AABBCC" <> Normal "#AABBCC".
Proof.
  split; [reflexivity|]. split; [reflexivity|].
  assert (E : Spec.hexToRgbToHex "#AABBCC" = Normal "#aabbcc") by (vm_compute; reflexivity).
  split; [exact E|]. rewrite E. discriminate.
Qed.

(** ** The hue arithmetic in binary64

    NaN absorbs every operation of the hue arithmetic.  On the hues that
    [rgbToHsl] prints, 0 to 360, and for families of up to [max_shades]
    shades, the sums, the average and the offsets that the code computes in
    binary64 are those of the integers: checked value by value. *)

Lemma add_nan_r (x : float) : (x + PrimFloat.nan)%float = PrimFloat.nan.
Proof.
  apply Prim2SF_inj. rewrite add_spec.
  change (Prim2SF PrimFloat.nan) with S754_nan.
  destruct (Prim2SF x); reflexivity.
Qed.

Lemma add_nan_l (x : float) : (PrimFloat.nan + x)%float = PrimFloat.nan.
Proof.
  apply Prim2SF_inj. rewrite add_spec.
  change (Prim2SF PrimFloat.nan) with S754_nan. reflexivity.
Qed.

Lemma sub_nan_r (x : float) : (x - PrimFloat.nan)%float = PrimFloat.nan.
Proof.
  apply Prim2SF_inj. rewrite sub_spec.
  change (Prim2SF PrimFloat.nan) with S754_nan.
  destruct (Prim2SF x); reflexivity.
Qed.

Lemma div_nan_l (x : float) : (PrimFloat.nan / x)%float = PrimFloat.nan.
Proof.
  apply Prim2SF_inj. rewrite div_spec.
  change (Prim2SF PrimFloat.nan) with S754_nan. reflexivity.
Qed.

Lemma in_zseq (len : nat) :
  forall start z, (start <= z < start + Z.of_nat len)%Z -> In z (zseq start len).
Proof.
  induction len as [|k IH]; intros start z Hz; [lia|].
  simpl. destruct (Z.eq_dec start z) as [E | E]; [now left | right].
  apply IH. lia.
Qed.

Lemma hue_io_checked : forallb hue_io_ok hues = true.
Proof. vm_compute. reflexivity. Qed.

Lemma hue_sums_checked :
  forallb (fun total => forallb (hue_sum_ok total) hues)
    (zseq 0 (360 * (max_shades - 1) + 1)) = true.
Proof. vm_compute. reflexivity. Qed.

Lemma hue_offsets_checked :
  forallb (fun h => forallb (hue_offset_ok h) hues) hues = true.
Proof. vm_compute. reflexivity. Qed.

Lemma hue_averages_checked :
  forallb (fun n => forallb (hue_average_ok n) (zseq 0 (Z.to_nat (360 * n + 1))))
    (zseq 1 max_shades)
  = true.
Proof. vm_compute. reflexivity. Qed.

Lemma hue_io_exact (h : Z) :
  (0 <= h <= 360)%Z ->
  Js.StringToNumber (Js.decimal h) = Js.float_of_nonneg h
  /\ Js.Number_toString (Js.float_of_nonneg h) = Js.decimal h.
Proof.
  intros Hh. pose proof hue_io_checked as H. rewrite forallb_forall in H.
  specialize (H h (in_zseq 361 0 h ltac:(lia))).
  apply andb_true_iff in H as [H1 H2].
  split; [now apply FloatAxioms.Leibniz.eqb_spec | now apply String.eqb_eq].
Qed.

Lemma hue_sum_exact (total h : Z) :
  (0 <= total <= 360 * (Z.of_nat max_shades - 1))%Z -> (0 <= h <= 360)%Z ->
  (Js.float_of_nonneg total + Js.float_of_nonneg h)%float = Js.float_of_nonneg (total + h).
Proof.
  intros Ht Hh. pose proof hue_sums_checked as H. rewrite forallb_forall in H.
  assert (Hlen : Z.of_nat (360 * (max_shades - 1) + 1) = (360 * (Z.of_nat max_shades - 1) + 1)%Z)
    by (vm_compute; reflexivity).
  specialize (H total (in_zseq (360 * (max_shades - 1) + 1) 0 total ltac:(lia))).
  rewrite forallb_forall in H. specialize (H h (in_zseq 361 0 h ltac:(lia))).
  now apply FloatAxioms.Leibniz.eqb_spec.
Qed.

Lemma hue_offset_exact (h a : Z) :
  (0 <= h <= 360)%Z -> (0 <= a <= 360)%Z ->
  PrimFloat.leb 0 (Js.float_of_nonneg h - Js.float_of_nonneg a) = (0 <=? h - a)%Z
  /\ PrimFloat.eqb (Js.float_of_nonneg h - Js.float_of_nonneg a) 0 = (h - a =? 0)%Z
  /\ PrimFloat.abs (Js.float_of_nonneg h - Js.float_of_nonneg a)
     = Js.float_of_nonneg (Z.abs (h - a)).
Proof.
  intros Hh Ha. pose proof hue_offsets_checked as H. rewrite forallb_forall in H.
  specialize (H h (in_zseq 361 0 h ltac:(lia))). rewrite forallb_forall in H.
  specialize (H a (in_zseq 361 0 a ltac:(lia))). unfold hue_offset_ok in H.
  repeat (apply andb_true_iff in H as [H ?]).
  repeat split; try (now apply Bool.eqb_prop); now apply FloatAxioms.Leibniz.eqb_spec.
Qed.

Lemma hue_average_exact (n total : Z) :
  (1 <= n <= Z.of_nat max_shades)%Z -> (0 <= total <= 360 * n)%Z ->
  Js.Math_round (Js.float_of_nonneg total / Js.float_of_nonneg n)%float
  = Js.float_of_nonneg ((2 * total + n) / (2 * n)).
Proof.
  intros Hn Ht. pose proof hue_averages_checked as H. rewrite forallb_forall in H.
  specialize (H n (in_zseq max_shades 1 n ltac:(lia))). rewrite forallb_forall in H.
  specialize (H total (in_zseq (Z.to_nat (360 * n + 1)) 0 total ltac:(lia))).
  now apply FloatAxioms.Leibniz.eqb_spec.
Qed.

(** ** The HSL range generator *)

Lemma addProperty_distinct (getValue : string -> string) (gs : Util.groups) (property : string) :
  distinct_keys gs -> distinct_keys (Util.addProperty getValue gs property).
Proof.
  intros [Hown Hgroups]. unfold Util.addProperty.
  destruct (Re.color_prop property) as [colorName|]; [|now split].
  destruct (String.eqb colorName "__proto__"); [now split|].
  destruct (Util.inherited colorName); [now split|].
  split; simpl.
  - now apply set_NoDup.
  - intros F g Hin. apply in_set in Hin as [E | Hin]; [|now apply (Hgroups F)].
    injection E as -> ->. apply set_NoDup.
    destruct (Obj.get (Util.own gs) colorName) as [group|] eqn:E; [|constructor].
    apply (Hgroups colorName). now apply get_in.
Qed.

Lemma initColorGroups_distinct (getValue : string -> string) (names : list string) :
  distinct_keys (Util.initColorGroups getValue names).
Proof.
  unfold Util.initColorGroups.
  assert (H : distinct_keys {| Util.own := []; Util.proto := [] |}).
  { split; simpl; [constructor | intros ? ? []]. }
  revert H. generalize {| Util.own := []; Util.proto := [] |}.
  induction names as [|p names IH]; intros gs H; simpl; [exact H|].
  apply IH. now apply addProperty_distinct.
Qed.

(** The loop visits an own family once, with its group. *)
Lemma families_own (gs : Util.groups) (colorName : string) (group : Obj.t string) :
  distinct_keys gs ->
  Obj.get (Util.own gs) colorName = Some group ->
  In (colorName, group) (Util.families gs)
  /\ forall f, In f (Util.families gs) -> fst f = colorName -> f = (colorName, group).
Proof.
  intros [Hown _] Hget. unfold Util.families. split.
  - apply in_app_iff. left. apply in_entries. now apply get_in.
  - intros [F g] Hin HF. simpl in HF. subst F.
    apply in_app_iff in Hin as [Hin | Hin].
    + apply (proj1 (in_entries _ _)) in Hin. apply (in_get _ _ _ Hown) in Hin. congruence.
    + apply in_map_iff in Hin as (e & [= HF Hg] & Hin).
      apply filter_In in Hin as [_ Hshadow].
      rewrite HF, Hget in Hshadow. discriminate.
Qed.

Lemma generated_family (getValue : string -> string) (names : list string)
  (colorName : string) (group : Obj.t string) :
  Obj.get (Util.own (Util.initColorGroups getValue names)) colorName = Some group ->
  Obj.get (Util.baseHues (Util.generateHSLRanges getValue names)) colorName
  = Some (Util.baseHue (Util.familyOf colorName group))
  /\ Obj.get (Util.hslColorGroups (Util.generateHSLRanges getValue names)) colorName
     = Some (Util.hslGroup (Util.familyOf colorName group)).
Proof.
  intros Hget.
  destruct (families_own _ _ _ (initColorGroups_distinct getValue names) Hget) as [Hin Huniq].
  unfold Util.generateHSLRanges. cbn [Util.baseHues Util.hslColorGroups].
  split.
  - apply (fold_set_get fst (fun f => Util.baseHue (Util.familyOf (fst f) (snd f)))).
    + intros f Hf Hk. now rewrite (Huniq f Hf Hk).
    + left. now exists (colorName, group).
  - apply (fold_set_get fst (fun f => Util.hslGroup (Util.familyOf (fst f) (snd f)))).
    + intros f Hf Hk. now rewrite (Huniq f Hf Hk).
    + left. now exists (colorName, group).
Qed.

Lemma append_cancel_r (a b s : string) : a ++ s = b ++ s -> a = b.
Proof.
  revert b. induction a as [|c a IH]; intros [|d b] H; simpl in H.
  - reflexivity.
  - apply (f_equal String.length) in H. simpl in H. rewrite length_append in H. lia.
  - apply (f_equal String.length) in H. simpl in H. rewrite length_append in H. lia.
  - injection H as -> H. f_equal. now apply IH.
Qed.

Lemma shades_of_group (group : Obj.t string) :
  combine (Obj.keys group) (Util.hslColorsOf group)
  = map (fun e => (fst e, Util.rgbToHsl (Util.hexToRgb (snd e)))) (Obj.entries group).
Proof.
  unfold Obj.keys, Util.hslColorsOf, Obj.values.
  induction (Obj.entries group) as [|e l IH]; simpl; [reflexivity | now rewrite IH].
Qed.

Lemma hslGroup_get (colorName : string) (group : Obj.t string) (property hex : string) :
  NoDup (map fst group) ->
  In (property, hex) (Obj.entries group) ->
  Obj.get (Util.hslGroup (Util.familyOf colorName group)) (property ++ "-hsl")
  = Some (Util.offsetDeclaration colorName
            (Util.hueAvg colorName (Util.hslColorsOf group))
            (Util.rgbToHsl (Util.hexToRgb hex))).
Proof.
  intros Hnd Hin. unfold Util.familyOf. cbn [Util.hslGroup].
  rewrite shades_of_group.
  apply (fold_set_get (fun shade => fst shade ++ "-hsl")
           (fun shade => Util.offsetDeclaration colorName
                           (Util.hueAvg colorName (Util.hslColorsOf group)) (snd shade))).
  - intros shade Hs Hk. apply in_map_iff in Hs as ([p v] & <- & He). simpl in Hk |- *.
    apply append_cancel_r in Hk. subst p.
    apply (proj1 (in_entries _ _)) in He. apply (proj1 (in_entries _ _)) in Hin.
    apply (in_get _ _ _ Hnd) in He. apply (in_get _ _ _ Hnd) in Hin.
    congruence.
  - left. exists (property, Util.rgbToHsl (Util.hexToRgb hex)). split; [|reflexivity].
    apply in_map_iff. now exists (property, hex).
Qed.

(** Groups are never empty. *)
Lemma set_not_empty {A} (o : Obj.t A) (k : string) (v : A) : Obj.set o k v <> [].
Proof. destruct o as [|[k' v'] o]; simpl; [|destruct (String.eqb k' k)]; discriminate. Qed.

Lemma initColorGroups_inhabited (getValue : string -> string) (names : list string) :
  inhabited (Util.initColorGroups getValue names).
Proof.
  unfold Util.initColorGroups.
  assert (H : inhabited {| Util.own := []; Util.proto := [] |}) by (intros ? ? []).
  revert H. generalize {| Util.own := []; Util.proto := [] |}.
  induction names as [|p names IH]; intros gs H; simpl; [exact H|].
  apply IH. unfold Util.addProperty.
  destruct (Re.color_prop p) as [colorName|]; [|exact H].
  destruct (String.eqb colorName "__proto__"); [exact H|].
  destruct (Util.inherited colorName); [exact H|].
  intros F g Hin. simpl in Hin. apply in_set in Hin as [E | Hin]; [|now apply (H F)].
  injection E as -> ->. apply set_not_empty.
Qed.

Lemma entries_length {A} (o : Obj.t A) : o <> [] -> Obj.entries o <> [].
Proof.
  destruct o as [|e o]; [contradiction|]. intros _ H.
  assert (Hin : In e (Obj.entries (e :: o))) by (apply in_entries; now left).
  rewrite H in Hin. destruct Hin.
Qed.

(** *** Families whose hues are read *)

Lemma hue_of_read (hsl : string) (hue : Z) :
  hue_read hsl hue -> Util.hue_of hsl = Js.float_of_nonneg hue.
Proof.
  intros [Hh (s & l & Hm)]. unfold Util.hue_of. rewrite Hm. simpl.
  apply (hue_io_exact hue Hh).
Qed.

Lemma hues_bounded (hslColors : list string) (hues : list Z) :
  Forall2 hue_read hslColors hues ->
  (0 <= fold_right Z.add 0 hues <= 360 * Z.of_nat (List.length hues))%Z.
Proof.
  induction 1 as [|hsl h hslColors hues [Hh _] _ IH]; [simpl; lia|].
  cbn [fold_right List.length]. lia.
Qed.

Lemma total_of_hues (hslColors : list string) (hues : list Z) :
  Forall2 hue_read hslColors hues ->
  forall acc,
    (0 <= acc)%Z ->
    (acc + 360 * Z.of_nat (List.length hues) <= 360 * Z.of_nat max_shades)%Z ->
    fold_left (fun total hsl => (total + Util.hue_of hsl)%float) hslColors
      (Js.float_of_nonneg acc)
    = Js.float_of_nonneg (acc + fold_right Z.add 0 hues)%Z.
Proof.
  induction 1 as [|hsl h hslColors hues Hr Hrest IH]; intros acc Hacc Hmax.
  - simpl. now rewrite Z.add_0_r.
  - cbn [fold_left fold_right]. cbn [List.length] in Hmax.
    rewrite (hue_of_read hsl h Hr).
    destruct Hr as [Hh _].
    rewrite hue_sum_exact by lia.
    rewrite IH by lia. f_equal. lia.
Qed.

Lemma hueAvg_of_hues (colorName : string) (hslColors : list string) (hues : list Z) :
  colorName <> "grayx" ->
  Forall2 hue_read hslColors hues ->
  hues <> [] ->
  (List.length hues <= max_shades)%nat ->
  Util.hueAvg colorName hslColors = Js.float_of_nonneg (rounded_average hues)
  /\ (0 <= rounded_average hues <= 360)%Z.
Proof.
  intros Hname Hr Hne Hmax.
  assert (Hlen : List.length hslColors = List.length hues) by exact (Forall2_length Hr).
  assert (Hpos : (0 < List.length hues)%nat) by (destruct hues; [contradiction | simpl; lia]).
  pose proof (hues_bounded _ _ Hr) as Hsum.
  unfold rounded_average. cbv zeta.
  set (n := Z.of_nat (List.length hues)) in *.
  set (total := fold_right Z.add 0%Z hues) in *.
  assert (Hn : (1 <= n <= Z.of_nat max_shades)%Z) by (unfold n; lia).
  split.
  - unfold Util.hueAvg. apply String.eqb_neq in Hname. rewrite Hname.
    change PrimFloat.zero with (Js.float_of_nonneg 0).
    rewrite (total_of_hues _ _ Hr 0) by (fold n; lia).
    rewrite Hlen. fold n. fold total. rewrite Z.add_0_l.
    now apply hue_average_exact.
  - split.
    + apply Z.div_pos; lia.
    + enough ((2 * total + n) / (2 * n) < 361)%Z by lia.
      apply Z.div_lt_upper_bound; lia.
Qed.

Lemma rounded_average_nearest (hues : list Z) :
  hues <> [] ->
  (2 * Z.of_nat (List.length hues) * rounded_average hues
   <= 2 * fold_right Z.add 0 hues + Z.of_nat (List.length hues)
   < 2 * Z.of_nat (List.length hues) * (rounded_average hues + 1))%Z.
Proof.
  intros Hne. unfold rounded_average. cbv zeta.
  set (n := Z.of_nat (List.length hues)). set (total := fold_right Z.add 0%Z hues).
  assert (Hn : (0 < 2 * n)%Z) by (unfold n; destruct hues; [contradiction | simpl; lia]).
  pose proof (Z.mul_div_le (2 * total + n) (2 * n) Hn).
  pose proof (Z.mul_succ_div_gt (2 * total + n) (2 * n) Hn).
  lia.
Qed.

Lemma group_hues_inhabited (getValue : string -> string) (names : list string)
  (colorName : string) (group : Obj.t string) (hues : list Z) :
  Obj.get (Util.own (Util.initColorGroups getValue names)) colorName = Some group ->
  Forall2 hue_read (Util.hslColorsOf group) hues ->
  hues <> [].
Proof.
  intros Hget Hr Hnil. subst hues. inversion Hr as [Hc|]. 
  unfold Util.hslColorsOf, Obj.values in Hc. symmetry in Hc.
  apply map_eq_nil in Hc. apply map_eq_nil in Hc.
  apply (entries_length group); [|exact Hc].
  apply (initColorGroups_inhabited getValue names colorName). now apply get_in.
Qed.

Lemma offsetDeclaration_of_hues (colorName : string) (avg hue : Z) (hsl s l : string) :
  colorName <> "grayx" ->
  (0 <= avg <= 360)%Z -> (0 <= hue <= 360)%Z ->
  Re.hsl hsl = Some (Js.decimal hue, s, l) ->
  Util.offsetDeclaration colorName (Js.float_of_nonneg avg) hsl
  = offsetText colorName (hue - avg) s l.
Proof.
  intros Hname Ha Hh Hm. unfold Util.offsetDeclaration, offsetText.
  apply String.eqb_neq in Hname. rewrite Hname, Hm.
  cbn [option_map fst snd Js.Number Util.interpolate].
  rewrite (proj1 (hue_io_exact hue Hh)).
  destruct (hue_offset_exact hue avg Hh Ha) as (Hge & Heq & Habs).
  rewrite Hge, Heq, Habs.
  rewrite (proj2 (hue_io_exact (Z.abs (hue - avg)) ltac:(lia))).
  set (delta := (hue - avg)%Z).
  destruct (Z.eqb_spec delta 0) as [E | E].
  - rewrite E. reflexivity.
  - destruct (Z.ltb_spec 0 delta), (Z.leb_spec 0 delta), (Z.ltb_spec delta 0); try lia.
    + now rewrite Z.abs_eq by lia.
    + now rewrite Z.abs_neq by lia.
Qed.

(** For a family other than [grayx] of at most [max_shades] shades whose
    HSL forms all read a hue from 0 to 360, the baseline is the average of
    the hues rounded to the nearest integer (halves up). *)
Lemma hue_baseline_is_rounded_average (getValue : string -> string) (names : list string)
  (colorName : string) (group : Obj.t string) (hues : list Z) :
  Obj.get (Util.own (Util.initColorGroups getValue names)) colorName = Some group ->
  colorName <> "grayx" ->
  Forall2 hue_read (Util.hslColorsOf group) hues ->
  (List.length hues <= max_shades)%nat ->
  exists avg,
    Obj.get (Util.baseHues (Util.generateHSLRanges getValue names)) colorName
    = Some [("--dh-color-" ++ colorName ++ "-hue", Js.decimal avg ++ "deg")]
    /\ (2 * Z.of_nat (List.length hues) * avg
        <= 2 * fold_right Z.add 0 hues + Z.of_nat (List.length hues)
        < 2 * Z.of_nat (List.length hues) * (avg + 1))%Z.
Proof.
  intros Hget Hname Hr Hmax.
  pose proof (group_hues_inhabited _ _ _ _ _ Hget Hr) as Hne.
  destruct (hueAvg_of_hues colorName _ hues Hname Hr Hne Hmax) as [Havg Hbound].
  exists (rounded_average hues). split; [|now apply rounded_average_nearest].
  rewrite (proj1 (generated_family _ _ _ _ Hget)).
  unfold Util.familyOf. cbn [Util.baseHue].
  now rewrite Havg, (proj2 (hue_io_exact _ Hbound)).
Qed.

(** In a family other than [grayx] of at most [max_shades] shades whose
    HSL forms all read a hue from 0 to 360, the offset declaration of a
    shade with the hue [H] is [calc(var(hue) + d deg), S%, L%] when [H]
    exceeds the rounded average by [d > 0], [calc(var(hue) - d deg), S%, L%]
    when it is below by [d > 0], and [var(hue), S%, L%], without [calc],
    when [H] is the rounded average. *)
Theorem hue_offset_encoding (getValue : string -> string) (cssPropertyNames : list string)
  (colorName : string) (group : Obj.t string) (hues : list Z)
  (property hex : string) (hue : Z) (s l : string) :
  Obj.get (Util.own (Util.initColorGroups getValue cssPropertyNames)) colorName = Some group ->
  colorName <> "grayx" ->
  Forall2 hue_read (Util.hslColorsOf group) hues ->
  (List.length hues <= max_shades)%nat ->
  In (property, hex) (Obj.entries group) ->
  (0 <= hue <= 360)%Z ->
  Re.hsl (Util.rgbToHsl (Util.hexToRgb hex)) = Some (Js.decimal hue, s, l) ->
  exists hslGroup,
    Obj.get (Util.hslColorGroups (Util.generateHSLRanges getValue cssPropertyNames)) colorName
    = Some hslGroup
    /\ Obj.get hslGroup (property ++ "-hsl")
       = Some (offsetText colorName (hue - rounded_average hues) s l).
Proof.
  intros Hget Hname Hr Hmax Hin Hh Hm.
  pose proof (group_hues_inhabited _ _ _ _ _ Hget Hr) as Hne.
  destruct (hueAvg_of_hues colorName _ hues Hname Hr Hne Hmax) as [Havg Hbound].
  exists (Util.hslGroup (Util.familyOf colorName group)).
  split; [apply (generated_family _ _ _ _ Hget)|].
  rewrite (hslGroup_get colorName group property hex); [| |exact Hin].
  - now rewrite Havg, (offsetDeclaration_of_hues _ _ _ _ _ _ Hname Hbound Hh Hm).
  - apply (proj2 (initColorGroups_distinct getValue cssPropertyNames) colorName).
    now apply get_in.
Qed.

(** The three cases on one family: average 240, hues 240, 225 and 255. *)
Lemma blue_offsets :
  Obj.get (Util.hslColorGroups (Util.generateHSLRanges Spec.palette blues)) "blue"
  = Some [("--dh-color-blue-100-hsl", "var(--dh-color-blue-hue), 100%, 50%");
          ("--dh-color-blue-200-hsl", "calc(var(--dh-color-blue-hue) - 15deg), 100%, 50%");
          ("--dh-color-blue-300-hsl", "calc(var(--dh-color-blue-hue) + 15deg), 100%, 50%")].
Proof. vm_compute. reflexivity. Qed.

(** The family [grayx]: baseline 0 and no offset on any shade. *)
Lemma grayx_is_pinned (getValue : string -> string) (names : list string)
  (group : Obj.t string) :
  Obj.get (Util.own (Util.initColorGroups getValue names)) "grayx" = Some group ->
  Obj.get (Util.baseHues (Util.generateHSLRanges getValue names)) "grayx"
  = Some [("--dh-color-grayx-hue", "0deg")]
  /\ forall property hex,
       In (property, hex) (Obj.entries group) ->
       exists hslGroup s l,
         Obj.get (Util.hslColorGroups (Util.generateHSLRanges getValue names)) "grayx"
         = Some hslGroup
         /\ Obj.get hslGroup (property ++ "-hsl")
            = Some ("var(--dh-color-grayx-hue), " ++ s ++ "%, " ++ l ++ "%").
Proof.
  intros Hget. destruct (generated_family _ _ _ _ Hget) as [Hb Hh]. split.
  - rewrite Hb. reflexivity.
  - intros property hex Hin.
    eexists. eexists. eexists. split; [exact Hh|].
    rewrite (hslGroup_get "grayx" group property hex); [| |exact Hin].
    + unfold Util.offsetDeclaration. cbn. reflexivity.
    + apply (proj2 (initColorGroups_distinct getValue names) "grayx"). now apply get_in.
Qed.

(** C3, at a failing input.  A family with a pure black member: the HSL
    forms of its two members both have hue 0, so the average hue is 0 and
    the hue of [--dh-color-gray-500] equals it; its offset declaration
    should then be [var(--dh-color-gray-hue), 0%, 50.2%], with no delta
    term.  The generator writes a delta term, [- NaNdeg], on both shades:
    its pattern for HSL forms does not match the [NaN%] that [rgbToHsl]
    prints for black, and the NaN of that member spoils the average. *)
Theorem black_member_breaks_offsets :
  map (fun hex => Util.rgbToHsl (Util.hexToRgb hex)) ["#000000"; "#808080"]
  = ["hsl(0deg NaN% 0%)"; "hsl(0deg 0% 50.2%)"]
  /\ Re.hsl "hsl(0deg 0% 50.2%)" = Some ("0", "0", "50.2")
  /\ Util.hslColorGroups
       (Util.generateHSLRanges Spec.palette ["--dh-color-gray-900"; "--dh-color-gray-500"])
     = [("gray",
         [("--dh-color-gray-900-hsl",
           "calc(var(--dh-color-gray-hue) - NaNdeg), undefined%, undefined%");
          ("--dh-color-gray-500-hsl",
           "calc(var(--dh-color-gray-hue) - NaNdeg), 0%, 50.2%")])]
  /\ offsetText "gray" (0 - 0) "0" "50.2" = "var(--dh-color-gray-hue), 0%, 50.2%".
Proof. repeat split; vm_compute; reflexivity. Qed.

(** C6, at a failing input.  A family with a pure black member: the HSL
    forms of its two members both have hue 0, so the baseline the average
    gives is [0deg]; the generator emits [NaNdeg], because its pattern for
    HSL forms does not match the [NaN%] that [rgbToHsl] prints for black. *)
Theorem black_member_breaks_baseline :
  map (fun hex => Util.rgbToHsl (Util.hexToRgb hex)) ["#000000"; "#808080"]
  = ["hsl(0deg NaN% 0%)"; "hsl(0deg 0% 50.2%)"]
  /\ Util.baseHues
       (Util.generateHSLRanges Spec.palette ["--dh-color-gray-900"; "--dh-color-gray-500"])
     = [("gray", [("--dh-color-gray-hue", "NaNdeg")])].
Proof. split; vm_compute; reflexivity. Qed.

(** * Further properties *)

(** ** The path and the heading *)

(** The query string [?css=P], with [P] free of line ends, selects the path
    [P] in both pages.  A query string that does not start with [?css=]
    makes [getCssPath] fall back on [themes/hex.css], and makes the inline
    script throw [Error("No css path provided")]. *)
Theorem css_path_from_query (search : string) :
  (forall path, search = "?css=" ++ path -> one_line path ->
     Util.getCssPath search = path /\ Iframe.cssPath search = Normal path)
  /\ (Js.startsWith search "?css=" = false ->
      Util.getCssPath search = "themes/hex.css"
      /\ Iframe.cssPath search = Throw (Error "No css path provided")).
Proof.
  split.
  - intros path -> Hline.
    unfold Util.getCssPath, Iframe.cssPath, Re.css_param.
    rewrite strip_prefix_append. unfold one_line in Hline. rewrite Hline. auto.
  - intros H. unfold Util.getCssPath, Iframe.cssPath, Re.css_param, Re.strip_prefix.
    rewrite H. auto.
Qed.

Lemma css_path_from_query_witness :
  Util.getCssPath "?css=themes/hsl.css&x=1" = "themes/hsl.css&x=1"
  /\ Util.getCssPath "?x=1&css=themes/hsl.css" = "themes/hex.css"
  /\ Iframe.cssPath "" = Throw (Error "No css path provided").
Proof.
  split; [|split].
  - exact (proj1 (proj1 (css_path_from_query "?css=themes/hsl.css&x=1")
                    "themes/hsl.css&x=1" eq_refl eq_refl)).
  - exact (proj1 (proj2 (css_path_from_query "?x=1&css=themes/hsl.css") eq_refl)).
  - exact (proj2 (proj2 (css_path_from_query "") eq_refl)).
Defined.

Lemma lastIndexOf_absent (s : string) (c : ascii) :
  Js.forall_string (fun x => negb (Ascii.eqb x c)) s = true ->
  forall i found, Js.lastIndexOf_from s c i found = found.
Proof.
  induction s as [|x s IH]; intros H i found; [reflexivity|].
  simpl in H. apply andb_true_iff in H as [Hx Hs]. apply negb_true_iff in Hx.
  simpl. rewrite Hx. now apply IH.
Qed.

Lemma lastIndexOf_last (a b : string) (c : ascii) :
  Js.forall_string (fun x => negb (Ascii.eqb x c)) b = true ->
  forall i found,
    Js.lastIndexOf_from (a ++ String c b) c i found = (i + Z.of_nat (String.length a))%Z.
Proof.
  intros Hb. induction a as [|x a IH]; intros i found.
  - simpl. rewrite Ascii.eqb_refl, lastIndexOf_absent by exact Hb. lia.
  - simpl String.length. cbn [append Js.lastIndexOf_from]. rewrite IH. lia.
Qed.

Lemma slice_0 (s : string) : Js.slice s 0 = s.
Proof. unfold Js.slice. simpl. rewrite Nat.sub_0_r. apply substring_all. Qed.

Lemma slice_append (a b : string) :
  Js.slice (a ++ b) (Z.of_nat (String.length a)) = b.
Proof.
  unfold Js.slice. rewrite Nat2Z.id, length_append.
  replace (String.length a + String.length b - String.length a)%nat
    with (String.length b) by lia.
  now rewrite substring_skip, substring_all.
Qed.

(** [setHeading] appends one [h1] to the container: its text is what
    follows the last slash of the path, and the whole path when the path has
    no slash. *)
Theorem heading_is_last_segment (containerEl : list node) (dir name : string) :
  no_slash name ->
  Util.setHeading containerEl (dir ++ "/" ++ name) = (containerEl ++ [H1 name])%list
  /\ Util.setHeading containerEl name = (containerEl ++ [H1 name])%list.
Proof.
  intros Hname. unfold Util.setHeading, Js.lastIndexOf. split.
  - change (dir ++ "/" ++ name) with (dir ++ String "/" name).
    rewrite (lastIndexOf_last dir name "/" Hname).
    replace (0 + Z.of_nat (String.length dir) + 1)%Z
      with (Z.of_nat (String.length (dir ++ "/"))) by (rewrite length_append; simpl; lia).
    replace (dir ++ String "/" name) with ((dir ++ "/") ++ name)
      by (now rewrite append_assoc).
    now rewrite slice_append.
  - rewrite (lastIndexOf_absent name "/" Hname). now rewrite slice_0.
Qed.

Lemma heading_is_last_segment_witness :
  Util.setHeading [] "themes/dark/hex.css" = [H1 "hex.css"]
  /\ Util.setHeading [] "hex.css" = [H1 "hex.css"].
Proof.
  split.
  - exact (proj1 (heading_is_last_segment [] "themes/dark" "hex.css" eq_refl)).
  - exact (proj2 (heading_is_last_segment [] "" "hex.css" eq_refl)).
Defined.

(** ** Family keys *)

Lemma lazy_dash_plain (name rest : string) :
  plain_name name -> Re.lazy_dash (name ++ String "-" rest) = Some name.
Proof.
  unfold plain_name. induction name as [|c name IH]; intros H; [reflexivity|].
  simpl in H. apply andb_true_iff in H as [Hc Hn]. apply andb_true_iff in Hc as [Hd Hl].
  apply negb_true_iff in Hd, Hl.
  cbn [append Re.lazy_dash]. rewrite Hd, Hl, (IH Hn). reflexivity.
Qed.

Lemma lazy_dash_digit_plain (name rest : string) (d : ascii) :
  plain_name name -> Js.is_digit d = true ->
  Re.lazy_dash_digit (name ++ String "-" (String d rest)) = Some name.
Proof.
  unfold plain_name. intros H Hd. induction name as [|c name IH].
  - cbn. now rewrite Hd.
  - simpl in H. apply andb_true_iff in H as [Hc Hn]. apply andb_true_iff in Hc as [Hdash Hl].
    apply negb_true_iff in Hdash, Hl.
    cbn [append Re.lazy_dash_digit].
    assert (E : Re.dash_digit (String c (name ++ String "-" (String d rest))) = false).
    { unfold Re.dash_digit. destruct (name ++ String "-" (String d rest)); [reflexivity|].
      now rewrite Hdash. }
    rewrite E, Hl, (IH Hn). reflexivity.
Qed.

(** For a name [--dh-color-F-rest] whose [F] has no dash, [extractColorName]
    of [util.js] and [getPrefix] of the inline script both give [F], whatever
    [rest] is; the pattern of the generator gives [F] when [rest] starts with
    a digit. *)
Theorem family_key (name rest : string) :
  plain_name name ->
  Util.extractColorName (Some ("--dh-color-" ++ name ++ "-" ++ rest)) = Some name
  /\ Iframe.getPrefix (Some ("--dh-color-" ++ name ++ "-" ++ rest)) = Some name
  /\ (forall d more, rest = String d more -> Js.is_digit d = true ->
      Re.color_prop ("--dh-color-" ++ name ++ "-" ++ rest) = Some name).
Proof.
  intros H.
  assert (E : Re.color_name ("--dh-color-" ++ name ++ "-" ++ rest) = Some name).
  { unfold Re.color_name. rewrite strip_prefix_append. now apply lazy_dash_plain. }
  repeat split; try exact E.
  intros d more -> Hd. unfold Re.color_prop. rewrite strip_prefix_append.
  now apply lazy_dash_digit_plain.
Qed.

Lemma family_key_witness :
  Util.extractColorName (Some "--dh-color-blue-100") = Some "blue"
  /\ Util.extractColorName (Some "--dh-color-blue-700") = Some "blue"
  /\ Re.color_prop "--dh-color-red-500" = Some "red".
Proof.
  split; [|split].
  - exact (proj1 (family_key "blue" "100" eq_refl)).
  - exact (proj1 (family_key "blue" "700" eq_refl)).
  - exact (proj2 (proj2 (family_key "red" "500" eq_refl)) "5"%char "00" eq_refl eq_refl).
Defined.

(** ** [rgbToHsl] and [hexToRgb] *)

Lemma rgb_rejects_hsl (x : string) : Re.rgb ("hsl(" ++ x) = None.
Proof. reflexivity. Qed.

(** [rgbToHsl] leaves its own results alone: applied twice it gives what it
    gives once, for every string and in both revisions. *)
Theorem rgbToHsl_idempotent (rgb : string) :
  Util.rgbToHsl (Util.rgbToHsl rgb) = Util.rgbToHsl rgb
  /\ Part000.rgbToHsl (Part000.rgbToHsl rgb) = Part000.rgbToHsl rgb.
Proof.
  split.
  - unfold Util.rgbToHsl at 2 3. destruct (Re.rgb rgb) as [[[r g] b]|] eqn:E.
    + destruct (Util.hsl_of _ _ _) as [[h s] l].
      unfold Util.rgbToHsl. now rewrite rgb_rejects_hsl.
    + unfold Util.rgbToHsl. now rewrite E.
  - unfold Part000.rgbToHsl at 2 3. destruct (Re.rgb rgb) as [[[r g] b]|] eqn:E.
    + destruct (Util.hsl_of _ _ _) as [[h s] l].
      unfold Part000.rgbToHsl. now rewrite rgb_rejects_hsl.
    + unfold Part000.rgbToHsl. now rewrite E.
Qed.

Lemma hex_digit_alphanumeric (c : ascii) :
  hex_digit c = true -> Util.alphanumeric c = true.
Proof. destruct c as [[] [] [] [] [] [] [] []]; try discriminate; reflexivity. Qed.

(** A three-digit hex colour converts as the six-digit colour that repeats
    each of its digits. *)
Theorem hex_shorthand_expands (c1 c2 c3 : ascii) :
  Util.alphanumeric c1 = true -> Util.alphanumeric c2 = true -> Util.alphanumeric c3 = true ->
  Util.hexToRgb (String "#" (String c1 (String c2 (String c3 ""))))
  = Util.hexToRgb
      (String "#" (String c1 (String c1 (String c2 (String c2 (String c3 (String c3 ""))))))).
Proof.
  intros H1 H2 H3. unfold Util.hexToRgb.
  cbn [Js.startsWith String.prefix String.length Nat.eqb negb Util.double_alphanumerics].
  rewrite H1, H2, H3.
  reflexivity.
Qed.

Lemma hex_shorthand_expands_witness :
  Util.hexToRgb "#fA0" = Util.hexToRgb "#ffAA00".
Proof. exact (hex_shorthand_expands "f" "A" "0" eq_refl eq_refl eq_refl). Defined.

Lemma channel_values_checked :
  forallb (fun c1 => forallb (channel_value_ok c1) hex_chars) hex_chars = true.
Proof. vm_compute. reflexivity. Qed.

Lemma channel_value (c1 c2 : ascii) :
  hex_digit c1 = true -> hex_digit c2 = true ->
  channel c1 c2 = Js.decimal (pair_value c1 c2)
  /\ (0 <= pair_value c1 c2 <= 255)%Z
  /\ (String.length (channel c1 c2) <= 3)%nat.
Proof.
  intros H1 H2.
  pose proof channel_values_checked as H. rewrite forallb_forall in H.
  assert (I1 : In c1 hex_chars) by (apply filter_In; split; [apply in_all_chars | exact H1]).
  assert (I2 : In c2 hex_chars) by (apply filter_In; split; [apply in_all_chars | exact H2]).
  specialize (H c1 I1). rewrite forallb_forall in H. specialize (H c2 I2).
  unfold channel_value_ok in H.
  repeat (apply andb_true_iff in H as [H ?]).
  apply String.eqb_eq in H.
  repeat split; try (now apply Z.leb_le); [exact H | now apply Nat.leb_le].
Qed.

Lemma take_while_stop (p : ascii -> bool) (t rest : string) (c : ascii) :
  Js.forall_string p t = true -> p c = false ->
  Js.take_while p (t ++ String c rest) = t /\ Js.skip_while p (t ++ String c rest) = String c rest.
Proof.
  intros Ht Hc. induction t as [|x t IH]; simpl.
  - now rewrite Hc.
  - simpl in Ht. apply andb_true_iff in Ht as [Hx Ht]. rewrite Hx.
    destruct (IH Ht) as [-> ->]. auto.
Qed.

Lemma digits_1_3_stop (t rest : string) (c : ascii) :
  Js.forall_string Js.is_digit t = true -> t <> "" -> (String.length t <= 3)%nat ->
  Js.is_digit c = false ->
  Re.digits_1_3 (t ++ String c rest) = Some (t, String c rest).
Proof.
  intros Hd Hne Hlen Hc. unfold Re.digits_1_3.
  destruct (take_while_stop Js.is_digit t rest c Hd Hc) as [-> ->].
  destruct t as [|x t]; [contradiction|].
  assert (E : (String.length (String x t) <=? 3)%nat = true) by now apply Nat.leb_le.
  rewrite E. reflexivity.
Qed.

Lemma rgb_of_channels (rs gs bs : string) :
  Js.forall_string Js.is_digit rs = true -> rs <> "" -> (String.length rs <= 3)%nat ->
  Js.forall_string Js.is_digit gs = true -> gs <> "" -> (String.length gs <= 3)%nat ->
  Js.forall_string Js.is_digit bs = true -> bs <> "" -> (String.length bs <= 3)%nat ->
  Re.rgb ("rgb(" ++ rs ++ " " ++ gs ++ " " ++ bs ++ ")") = Some (rs, gs, bs).
Proof.
  intros. unfold Re.rgb. rewrite strip_prefix_append.
  change (rs ++ " " ++ gs ++ " " ++ bs ++ ")")
    with (rs ++ String " " (gs ++ String " " (bs ++ String ")" ""))).
  rewrite digits_1_3_stop by (assumption || reflexivity).
  change (String " " (gs ++ String " " (bs ++ String ")" "")))
    with (" " ++ (gs ++ String " " (bs ++ String ")" ""))).
  rewrite strip_prefix_append.
  rewrite digits_1_3_stop by (assumption || reflexivity).
  change (String " " (bs ++ String ")" "")) with (" " ++ (bs ++ String ")" "")).
  rewrite strip_prefix_append.
  rewrite digits_1_3_stop by (assumption || reflexivity).
  reflexivity.
Qed.

(** [hexToRgb] of a six-digit hex colour is [rgb(R G B)], each channel the
    decimal text of the value of its pair of digits, a byte; [rgbToHsl] then
    turns it into an [hsl(] form. *)
Theorem hexToRgb_bytes (c1 c2 c3 c4 c5 c6 : ascii) :
  hex_digit c1 = true -> hex_digit c2 = true -> hex_digit c3 = true ->
  hex_digit c4 = true -> hex_digit c5 = true -> hex_digit c6 = true ->
  let hex := String "#" (String c1 (String c2 (String c3 (String c4 (String c5 (String c6 "")))))) in
  Util.hexToRgb hex
  = "rgb(" ++ Js.decimal (pair_value c1 c2) ++ " " ++ Js.decimal (pair_value c3 c4) ++ " "
    ++ Js.decimal (pair_value c5 c6) ++ ")"
  /\ (0 <= pair_value c1 c2 <= 255)%Z /\ (0 <= pair_value c3 c4 <= 255)%Z
  /\ (0 <= pair_value c5 c6 <= 255)%Z
  /\ exists rest, Util.rgbToHsl (Util.hexToRgb hex) = "hsl(" ++ rest.
Proof.
  intros H1 H2 H3 H4 H5 H6 hex. subst hex.
  destruct (channel_value c1 c2 H1 H2) as (E1 & R1 & L1).
  destruct (channel_value c3 c4 H3 H4) as (E2 & R2 & L2).
  destruct (channel_value c5 c6 H5 H6) as (E3 & R3 & L3).
  destruct (channel_facts c1 c2 H1 H2) as (N1 & D1 & _).
  destruct (channel_facts c3 c4 H3 H4) as (N2 & D2 & _).
  destruct (channel_facts c5 c6 H5 H6) as (N3 & D3 & _).
  rewrite hexToRgb_six.
  split; [now rewrite E1, E2, E3|]. repeat (split; [assumption|]).
  unfold Util.rgbToHsl. rewrite rgb_of_channels by assumption.
  destruct (Util.hsl_of _ _ _) as [[h s] l]. eexists. reflexivity.
Qed.

Lemma hexToRgb_bytes_witness :
  Util.hexToRgb "#0f172a"
  = "rgb(" ++ Js.decimal (pair_value "0" "f") ++ " " ++ Js.decimal (pair_value "1" "7") ++ " "
    ++ Js.decimal (pair_value "2" "a") ++ ")".
Proof.
  exact (proj1 (hexToRgb_bytes "0" "f" "1" "7" "2" "a"
                  eq_refl eq_refl eq_refl eq_refl eq_refl eq_refl)).
Defined.

(** ** [parseRgba] and [rgbaToHex8] *)

Lemma delimiter_one_line (c : ascii) :
  Util.delimiter c = true -> negb (Js.is_line_terminator c) = true.
Proof. destruct c as [[] [] [] [] [] [] [] []]; try discriminate; reflexivity. Qed.

Lemma token_parts (t : string) :
  token t ->
  t <> "" /\ Js.forall_string (fun c => negb (Util.delimiter c)) t = true /\ one_line t.
Proof.
  intros [Hne H]. split; [exact Hne|]. split.
  - refine (forall_string_impl _ _ t _ H).
    intros c Hc. now apply andb_true_iff in Hc as [Hc _].
  - unfold one_line. refine (forall_string_impl _ _ t _ H).
    intros c Hc. now apply andb_true_iff in Hc as [_ Hc].
Qed.

Lemma split_at_delimiter (t rest : string) (c : ascii) :
  Js.forall_string (fun x => negb (Util.delimiter x)) t = true ->
  Util.delimiter c = true ->
  Util.split (t ++ String c rest) = t :: Util.split rest.
Proof.
  intros Ht Hc. induction t as [|x t IH]; simpl.
  - now rewrite Hc.
  - simpl in Ht. apply andb_true_iff in Ht as [Hx Ht].
    apply negb_true_iff in Hx. rewrite Hx, (IH Ht). reflexivity.
Qed.

Lemma tokens_skip (d rest : string) :
  Js.forall_string Util.delimiter d = true -> tokens (d ++ rest) = tokens rest.
Proof.
  unfold tokens. induction d as [|c d IH]; intros H; [reflexivity|].
  simpl in H. apply andb_true_iff in H as [Hc Hd].
  cbn [append Util.split]. rewrite Hc. cbn [filter String.eqb negb]. now apply IH.
Qed.

Lemma tokens_cons (t d rest : string) :
  token t -> separator d -> tokens (t ++ d ++ rest) = t :: tokens rest.
Proof.
  intros Ht [Hne Hd]. destruct (token_parts t Ht) as (Htne & Hnd & _).
  destruct d as [|c d]; [contradiction|].
  simpl in Hd. apply andb_true_iff in Hd as [Hc Hd].
  unfold tokens. cbn [append]. rewrite (split_at_delimiter t (d ++ rest) c Hnd Hc).
  cbn [filter]. destruct t as [|x t]; [contradiction|]. cbn [String.eqb negb].
  f_equal. now apply tokens_skip.
Qed.

Lemma tokens_last (t : string) : token t -> tokens t = [t].
Proof.
  intros Ht. destruct (token_parts t Ht) as (Htne & Hnd & _).
  unfold tokens. rewrite (split_last t Hnd). cbn [filter].
  destruct t; [contradiction | reflexivity].
Qed.

Lemma one_line_append (a b : string) : one_line a -> one_line b -> one_line (a ++ b).
Proof.
  unfold one_line. intros Ha Hb. now rewrite forall_string_append, Ha, Hb.
Qed.

Lemma separator_one_line (d : string) : separator d -> one_line d.
Proof.
  intros [_ H]. unfold one_line.
  apply (forall_string_impl _ _ d delimiter_one_line H).
Qed.

Lemma rgba_call_rgb (args : string) :
  one_line args -> Re.rgba_call ("rgb(" ++ args ++ ")") = Some ("rgb", args).
Proof.
  intros H. unfold Re.rgba_call.
  assert (E : Re.strip_prefix "rgba(" ("rgb(" ++ args ++ ")") = None) by reflexivity.
  rewrite E, strip_prefix_append, endsWith_append_r.
  change 1%nat with (String.length ")"). rewrite dropEnd_append.
  unfold one_line in H. now rewrite H.
Qed.

Lemma rgba_call_rgba (args : string) :
  one_line args -> Re.rgba_call ("rgba(" ++ args ++ ")") = Some ("rgba", args).
Proof.
  intros H. unfold Re.rgba_call.
  rewrite strip_prefix_append, endsWith_append_r.
  change 1%nat with (String.length ")"). rewrite dropEnd_append.
  unfold one_line in H. now rewrite H.
Qed.

Lemma rgba_call_either (alpha : bool) (args : string) :
  one_line args ->
  exists name, Re.rgba_call (function_name alpha ++ args ++ ")") = Some (name, args).
Proof.
  intros H. destruct alpha; eexists; [now apply rgba_call_rgba | now apply rgba_call_rgb].
Qed.

Lemma parseRgba_three (alpha : bool) (r g b d1 d2 : string) :
  token r -> token g -> token b -> separator d1 -> separator d2 ->
  Util.parseRgba (function_name alpha ++ (r ++ d1 ++ g ++ d2 ++ b) ++ ")")
  = Some {| Util.r := Js.StringToNumber r; Util.g := Js.StringToNumber g;
            Util.b := Js.StringToNumber b; Util.a := PrimFloat.one |}.
Proof.
  intros Hr Hg Hb H1 H2.
  pose proof (token_parts r Hr) as (_ & _ & Lr).
  pose proof (token_parts g Hg) as (_ & _ & Lg).
  pose proof (token_parts b Hb) as (_ & _ & Lb).
  pose proof (separator_one_line d1 H1) as L1.
  pose proof (separator_one_line d2 H2) as L2.
  destruct (rgba_call_either alpha (r ++ d1 ++ g ++ d2 ++ b)) as [name E].
  { repeat apply one_line_append; assumption. }
  unfold Util.parseRgba. rewrite E.
  change (filter (fun t => negb (String.eqb t "")) (Util.split (r ++ d1 ++ g ++ d2 ++ b)))
    with (tokens (r ++ d1 ++ g ++ d2 ++ b)).
  rewrite (tokens_cons r d1) by assumption.
  rewrite (tokens_cons g d2) by assumption.
  rewrite (tokens_last b) by assumption.
  reflexivity.
Qed.

Lemma parseRgba_four (alpha : bool) (r g b a d1 d2 d3 : string) :
  token r -> token g -> token b -> token a ->
  separator d1 -> separator d2 -> separator d3 ->
  Util.parseRgba (function_name alpha ++ (r ++ d1 ++ g ++ d2 ++ b ++ d3 ++ a) ++ ")")
  = Some {| Util.r := Js.StringToNumber r; Util.g := Js.StringToNumber g;
            Util.b := Js.StringToNumber b; Util.a := Js.StringToNumber a |}.
Proof.
  intros Hr Hg Hb Ha H1 H2 H3.
  pose proof (token_parts r Hr) as (_ & _ & Lr).
  pose proof (token_parts g Hg) as (_ & _ & Lg).
  pose proof (token_parts b Hb) as (_ & _ & Lb).
  pose proof (token_parts a Ha) as (_ & _ & La).
  pose proof (separator_one_line d1 H1) as L1.
  pose proof (separator_one_line d2 H2) as L2.
  pose proof (separator_one_line d3 H3) as L3.
  destruct (rgba_call_either alpha (r ++ d1 ++ g ++ d2 ++ b ++ d3 ++ a)) as [name E].
  { repeat apply one_line_append; assumption. }
  unfold Util.parseRgba. rewrite E.
  change (filter (fun t => negb (String.eqb t ""))
            (Util.split (r ++ d1 ++ g ++ d2 ++ b ++ d3 ++ a)))
    with (tokens (r ++ d1 ++ g ++ d2 ++ b ++ d3 ++ a)).
  rewrite (tokens_cons r d1) by assumption.
  rewrite (tokens_cons g d2) by assumption.
  rewrite (tokens_cons b d3) by assumption.
  rewrite (tokens_last a) by assumption.
  reflexivity.
Qed.

(** [parseRgba] reads the arguments of [rgb(] and of [rgba(] whatever runs
    of spaces, commas and slashes separate them.  With three arguments the
    alpha is 1; with four it is the fourth. *)
Theorem parseRgba_any_delimiters (alpha : bool) (r g b d1 d2 : string) :
  token r -> token g -> token b -> separator d1 -> separator d2 ->
  Util.parseRgba (function_name alpha ++ (r ++ d1 ++ g ++ d2 ++ b) ++ ")")
  = Some {| Util.r := Js.StringToNumber r; Util.g := Js.StringToNumber g;
            Util.b := Js.StringToNumber b; Util.a := PrimFloat.one |}
  /\ forall d3 a, separator d3 -> token a ->
       Util.parseRgba (function_name alpha ++ (r ++ d1 ++ g ++ d2 ++ b ++ d3 ++ a) ++ ")")
       = Some {| Util.r := Js.StringToNumber r; Util.g := Js.StringToNumber g;
                 Util.b := Js.StringToNumber b; Util.a := Js.StringToNumber a |}.
Proof.
  intros Hr Hg Hb H1 H2. split.
  - now apply parseRgba_three.
  - intros d3 a H3 Ha. now apply parseRgba_four.
Qed.

Lemma parseRgba_any_delimiters_witness :
  Util.parseRgba ("rgba(" ++ ("15" ++ ", " ++ "23" ++ "/" ++ "42" ++ " / " ++ "0.5") ++ ")")
  = Some {| Util.r := Js.StringToNumber "15"; Util.g := Js.StringToNumber "23";
            Util.b := Js.StringToNumber "42"; Util.a := Js.StringToNumber "0.5" |}.
Proof.
  refine (proj2 (parseRgba_any_delimiters true "15" "23" "42" ", " "/" _ _ _ _ _)
            " / " "0.5" _ _);
    (split; [discriminate | reflexivity]).
Defined.

Lemma bytes_checked : forallb byte_ok (zseq 0 256) = true.
Proof. vm_compute. reflexivity. Qed.

Lemma byte_facts (v : Z) :
  (0 <= v <= 255)%Z ->
  token (Js.decimal v)
  /\ exists h x y,
       Js.Number_toString16 (Js.StringToNumber (Js.decimal v)) = Some h
       /\ Js.padStart0 h 2 = String x (String y "")
       /\ channel x y = Js.decimal v.
Proof.
  intros Hv. pose proof bytes_checked as H. rewrite forallb_forall in H.
  specialize (H v (in_zseq 256 0 v ltac:(lia))). unfold byte_ok in H.
  apply andb_true_iff in H as [H Hh]. apply andb_true_iff in H as [Hne Ht].
  split.
  - split; [|exact Ht]. intros E. rewrite E in Hne. discriminate.
  - destruct (Js.Number_toString16 _) as [h|]; [|discriminate].
    destruct (Js.padStart0 h 2) as [|x [|y [|z r]]] eqn:P; try discriminate.
    apply andb_true_iff in Hh as [_ Hc]. apply String.eqb_eq in Hc.
    exists h, x, y. auto.
Qed.

(** A computed colour [rgb(r, g, b)] of three bytes, with any separators,
    is printed by [rgbaToHex8] as nine characters that end in [ff]; the
    first seven, which become the title of a swatch, convert back with
    [hexToRgb] to the same three bytes. *)
Theorem rgb_hex_rgb_roundtrip (r g b : Z) (d1 d2 : string) :
  (0 <= r <= 255)%Z -> (0 <= g <= 255)%Z -> (0 <= b <= 255)%Z ->
  separator d1 -> separator d2 ->
  exists hex8,
    Util.rgbaToHex8
      (Util.parseRgba ("rgb(" ++ (Js.decimal r ++ d1 ++ Js.decimal g ++ d2 ++ Js.decimal b) ++ ")"))
    = Normal hex8
    /\ String.length hex8 = 9%nat
    /\ Js.endsWith hex8 "ff" = true
    /\ Util.hexToRgb (Js.substring hex8 0 7)
       = "rgb(" ++ Js.decimal r ++ " " ++ Js.decimal g ++ " " ++ Js.decimal b ++ ")".
Proof.
  intros Hr Hg Hb H1 H2.
  destruct (byte_facts r Hr) as (Tr & hr & xr & yr & Nr & Pr & Cr).
  destruct (byte_facts g Hg) as (Tg & hg & xg & yg & Ng & Pg & Cg).
  destruct (byte_facts b Hb) as (Tb & hb & xb & yb & Nb & Pb & Cb).
  pose proof (parseRgba_three false _ _ _ d1 d2 Tr Tg Tb H1 H2) as P.
  change (function_name false) with "rgb(" in P. rewrite P. clear P.
  unfold Util.rgbaToHex8. cbn [Util.r Util.g Util.b Util.a].
  rewrite Nr, Ng, Nb, alpha_of_one, Pr, Pg, Pb.
  eexists. split; [reflexivity|]. split; [reflexivity|]. split; [reflexivity|].
  cbn [append Js.padStart0]. 
  change (Js.substring _ 0 7)
    with (String "#" (String xr (String yr (String xg (String yg (String xb (String yb ""))))))).
  now rewrite hexToRgb_six, Cr, Cg, Cb.
Qed.

Lemma rgb_hex_rgb_roundtrip_witness :
  exists hex8,
    Util.rgbaToHex8
      (Util.parseRgba ("rgb(" ++ (Js.decimal 15 ++ ", " ++ Js.decimal 23 ++ ", " ++ Js.decimal 42) ++ ")"))
    = Normal hex8
    /\ String.length hex8 = 9%nat
    /\ Js.endsWith hex8 "ff" = true
    /\ Util.hexToRgb (Js.substring hex8 0 7)
       = "rgb(" ++ Js.decimal 15 ++ " " ++ Js.decimal 23 ++ " " ++ Js.decimal 42 ++ ")".
Proof.
  apply (rgb_hex_rgb_roundtrip 15 23 42 ", " ", "); try lia;
    (split; [discriminate | reflexivity]).
Defined.

(** ** The swatch loops as a whole *)

Lemma forEach_append (cs : ComputedStyle) (l1 l2 : list string) :
  forall (st : Util.state) (i : nat),
    Util.forEach (Util.callback cs) st (l1 ++ l2)%list i
    = match Util.forEach (Util.callback cs) st l1 i with
      | (st', Normal _) => Util.forEach (Util.callback cs) st' l2 (i + List.length l1)
      | (st', c) => (st', c)
      end.
Proof.
  induction l1 as [|p l1 IH]; intros st i; simpl.
  - now rewrite Nat.add_0_r.
  - destruct (Util.callback cs st p i) as [st' [[]| e |]]; try reflexivity.
    rewrite IH. now replace (S i + List.length l1)%nat with (i + S (List.length l1))%nat by lia.
Qed.

(** When the computed background of a shade is not in [rgb] notation,
    [buildSwatches] ends with a [TypeError] at that name: the swatches of the
    names before it stay, its own element is appended with its label and
    colours but without a title, and the names after it are not rendered. *)
Theorem buildSwatches_stops_at_unparsed_background (cs : ComputedStyle)
  (containerEl : list Div) (before after : list string) (property : string) (st : Util.state) :
  Util.forEach (Util.callback cs) (start containerEl) before 0 = (st, Normal tt) ->
  Js.endsWith property "-hsl" = false ->
  Re.ends "-hue" (Some property) = false ->
  Util.parseRgba (resolveBackground cs ("var(" ++ Util.strip_hsl property ++ ")")) = None ->
  exists div,
    Util.buildSwatches cs containerEl (before ++ property :: after)%list
    = ((Util.children st ++ [div])%list, Throw TypeError)
    /\ content div = InnerHTML (Util.label cs property)
    /\ backgroundColor div = Some ("var(" ++ Util.strip_hsl property ++ ")")
    /\ color div = Some (Util.foreground property)
    /\ title div = None.
Proof.
  intros Hbefore Hhsl Hhue Hnull.
  unfold Util.buildSwatches. fold (start containerEl).
  rewrite forEach_append, Hbefore. cbn [Util.forEach].
  unfold Util.callback. rewrite Hhsl, Hhue, Hnull. cbn [Util.rgbaToHex8].
  eexists. split; [reflexivity|]. repeat split.
Qed.

Lemma buildSwatches_stops_at_unparsed_background_witness :
  exists div,
    Util.buildSwatches wide_gamut []
      (["--dh-color-blue-hue"] ++ "--dh-color-blue-100" :: ["--dh-color-blue-200"])%list
    = ((Util.children
          (fst (Util.forEach (Util.callback wide_gamut) (start []) ["--dh-color-blue-hue"] 0))
        ++ [div])%list, Throw TypeError)
    /\ content div = InnerHTML (Util.label wide_gamut "--dh-color-blue-100")
    /\ backgroundColor div = Some ("var(" ++ Util.strip_hsl "--dh-color-blue-100" ++ ")")
    /\ color div = Some (Util.foreground "--dh-color-blue-100")
    /\ title div = None.
Proof.
  apply (buildSwatches_stops_at_unparsed_background wide_gamut [] ["--dh-color-blue-hue"]
           ["--dh-color-blue-200"] "--dh-color-blue-100").
  - vm_compute. reflexivity.
  - reflexivity.
  - reflexivity.
  - vm_compute. reflexivity.
Defined.

Lemma labelled_nil (text : string -> markup) : labelled text [] [].
Proof. split; reflexivity. Qed.

Lemma labelled_cons (text : string -> markup) (p : string) (names : list string)
  (d : Div) (divs : list Div) :
  className d = "swatch" -> content d = text p -> labelled text names divs ->
  labelled text (p :: names) (d :: divs).
Proof. intros Hc Ht [H1 H2]. split; simpl; now f_equal. Qed.

Lemma callback_normal (cs : ComputedStyle) (st st' : Util.state) (p : string) (i : nat) :
  Util.callback cs st p i = (st', Normal tt) ->
  (Js.endsWith p "-hsl" = true /\ st' = st)
  \/ (Js.endsWith p "-hsl" = false
      /\ exists d, Util.children st' = (Util.children st ++ [d])%list
                   /\ className d = "swatch" /\ content d = InnerHTML (Util.label cs p)).
Proof.
  unfold Util.callback. destruct (Js.endsWith p "-hsl"); [intros [= <-]; now left|].
  intros H. right. split; [reflexivity|].
  destruct (Re.ends "-hue" (Some p)).
  - injection H as <-. eexists. repeat split.
  - destruct (Util.rgbaToHex8 _); try discriminate.
    injection H as <-. eexists. repeat split.
Qed.

Lemma forEach_normal (cs : ComputedStyle) (names : list string) :
  forall (st st' : Util.state) (i : nat),
    Util.forEach (Util.callback cs) st names i = (st', Normal tt) ->
    exists divs,
      Util.children st' = (Util.children st ++ divs)%list
      /\ labelled (fun p => InnerHTML (Util.label cs p)) (rendered names) divs.
Proof.
  induction names as [|p names IH]; intros st st' i H; simpl in H.
  - injection H as <-. exists []. split; [now rewrite app_nil_r | apply labelled_nil].
  - destruct (Util.callback cs st p i) as [st1 [[]| e |]] eqn:E; try discriminate.
    destruct (IH _ _ _ H) as (divs & Hc & Hl).
    destruct (callback_normal _ _ _ _ _ E) as [[Hp ->] | (Hp & d & Hd & Hcl & Hco)].
    + exists divs. split; [exact Hc|]. unfold rendered. simpl. now rewrite Hp.
    + exists (d :: divs). split.
      * rewrite Hc, Hd, <- app_assoc. reflexivity.
      * unfold rendered. simpl. rewrite Hp. simpl. now apply labelled_cons.
Qed.

(** When [buildSwatches] returns, it has appended to the container one
    element of class [swatch] for each name that does not end in [-hsl], in
    the order of the names, each with the label of its name. *)
Theorem buildSwatches_one_swatch_per_name (cs : ComputedStyle) (containerEl after : list Div)
  (cssPropertyNames : list string) :
  Util.buildSwatches cs containerEl cssPropertyNames = (after, Normal tt) ->
  exists divs,
    after = (containerEl ++ divs)%list
    /\ labelled (fun p => InnerHTML (Util.label cs p)) (rendered cssPropertyNames) divs.
Proof.
  unfold Util.buildSwatches.
  destruct (Util.forEach _ _ cssPropertyNames 0) as [st c] eqn:E.
  intros [= <- ->]. exact (forEach_normal _ _ _ _ _ E).
Qed.

Lemma buildSwatches_one_swatch_per_name_witness :
  exists divs,
    fst (Util.buildSwatches demo [] some_names) = ([] ++ divs)%list
    /\ labelled (fun p => InnerHTML (Util.label demo p))
         ["--dh-color-blue-hue"; "--dh-color-blue-100"] divs.
Proof.
  apply (buildSwatches_one_swatch_per_name demo [] _ some_names).
  vm_compute. reflexivity.
Defined.

Lemma Part000_callback_children (cs : ComputedStyle) (st : Util.state) (p : string) (i : nat) :
  exists d,
    Util.children (Part000.callback cs st p i) = (Util.children st ++ [d])%list
    /\ className d = "swatch" /\ content d = InnerHTML (Part000.label cs p).
Proof.
  unfold Part000.callback. destruct (Re.ends "-hue" (Some p)); eexists; repeat split.
Qed.

Lemma Iframe_callback_children (cs : ComputedStyle) (st : Util.state) (p : string) (i : nat) :
  exists d,
    Util.children (Iframe.callback cs st p i) = (Util.children st ++ [d])%list
    /\ className d = "swatch"
    /\ content d = InnerText (p ++ ": " ++ getPropertyValue cs p).
Proof.
  unfold Iframe.callback. destruct (Re.ends "-hue" (Some p)); eexists; repeat split.
Qed.

Lemma Part000_forEach_children (cs : ComputedStyle) (names : list string) :
  forall (st : Util.state) (i : nat),
    exists divs,
      Util.children (Part000.forEach (Part000.callback cs) st names i)
      = (Util.children st ++ divs)%list
      /\ labelled (fun p => InnerHTML (Part000.label cs p)) names divs.
Proof.
  induction names as [|p names IH]; intros st i; simpl.
  - exists []. split; [now rewrite app_nil_r | apply labelled_nil].
  - destruct (IH (Part000.callback cs st p i) (S i)) as (divs & Hc & Hl).
    destruct (Part000_callback_children cs st p i) as (d & Hd & Hcl & Hco).
    exists (d :: divs). split.
    + rewrite Hc, Hd, <- app_assoc. reflexivity.
    + now apply labelled_cons.
Qed.

Lemma Iframe_forEach_children (cs : ComputedStyle) (names : list string) :
  forall (st : Util.state) (i : nat),
    exists divs,
      Util.children (Part000.forEach (Iframe.callback cs) st names i)
      = (Util.children st ++ divs)%list
      /\ labelled (fun p => InnerText (p ++ ": " ++ getPropertyValue cs p)) names divs.
Proof.
  induction names as [|p names IH]; intros st i; simpl.
  - exists []. split; [now rewrite app_nil_r | apply labelled_nil].
  - destruct (IH (Iframe.callback cs st p i) (S i)) as (divs & Hc & Hl).
    destruct (Iframe_callback_children cs st p i) as (d & Hd & Hcl & Hco).
    exists (d :: divs). split.
    + rewrite Hc, Hd, <- app_assoc. reflexivity.
    + now apply labelled_cons.
Qed.

(** The earlier revision of [buildSwatches] and the loop of the inline
    script append one element for every name, those ending in [-hsl]
    included, and never fail. *)
Theorem earlier_builders_render_every_name (cs : ComputedStyle) (containerEl : list Div)
  (names : list string) :
  (exists divs,
     Part000.buildSwatches cs containerEl names = (containerEl ++ divs)%list
     /\ labelled (fun p => InnerHTML (Part000.label cs p)) names divs)
  /\ (exists divs,
        Iframe.swatches cs containerEl names = (containerEl ++ divs)%list
        /\ labelled (fun p => InnerText (p ++ ": " ++ getPropertyValue cs p)) names divs).
Proof.
  split.
  - exact (Part000_forEach_children cs names (start containerEl) 0).
  - exact (Iframe_forEach_children cs names (start containerEl) 0).
Qed.

(** ** Spacing inside one family *)

Lemma option_string_eqb_refl (x : option string) : Util.option_string_eqb x x = true.
Proof. destruct x; simpl; [apply String.eqb_refl | reflexivity]. Qed.

Lemma spaced_settled (colorName : string) (st : Util.state) (i : nat) (p : string) :
  settled colorName st i -> Util.extractColorName (Some p) = Some colorName ->
  Util.spaced i (Util.prevProperty st) p = false
  /\ Iframe.spaced i (Util.prevProperty st) p = false.
Proof.
  intros [-> | (q & Hq & Hf)] Hp.
  - split; reflexivity.
  - unfold Util.spaced, Iframe.spaced, Iframe.getPrefix.
    fold (Util.extractColorName (Some p)). fold (Util.extractColorName (Util.prevProperty st)).
    rewrite Hq, Hp, Hf, option_string_eqb_refl. simpl.
    split; now rewrite andb_false_r.
Qed.

Lemma unspaced_snoc (divs : list Div) (d : Div) :
  unspaced divs -> marginTop d = None -> unspaced (divs ++ [d])%list.
Proof.
  intros H Hd. apply Forall_app. split; [exact H | now constructor].
Qed.

Lemma Part000_step (colorName : string) (cs : ComputedStyle) (st : Util.state)
  (p : string) (i : nat) :
  settled colorName st i -> Util.extractColorName (Some p) = Some colorName ->
  unspaced (Util.children st) ->
  unspaced (Util.children (Part000.callback cs st p i))
  /\ settled colorName (Part000.callback cs st p i) (S i)
  /\ unspaced (Util.children (Iframe.callback cs st p i))
  /\ settled colorName (Iframe.callback cs st p i) (S i).
Proof.
  intros Hs Hp Hu. destruct (spaced_settled _ _ _ _ Hs Hp) as [E1 E2].
  unfold Part000.callback, Iframe.callback. rewrite E1, E2.
  repeat split.
  - apply unspaced_snoc; [exact Hu|]. destruct (Re.ends "-hue" (Some p)); reflexivity.
  - right. now exists p.
  - apply unspaced_snoc; [exact Hu|]. destruct (Re.ends "-hue" (Some p)); reflexivity.
  - right. now exists p.
Qed.

Lemma Part000_unspaced (colorName : string) (cs : ComputedStyle) (names : list string) :
  one_family colorName names ->
  forall st i, settled colorName st i -> unspaced (Util.children st) ->
    unspaced (Util.children (Part000.forEach (Part000.callback cs) st names i)).
Proof.
  induction 1 as [|p names Hp Hn IH]; intros st i Hs Hu; simpl; [exact Hu|].
  destruct (Part000_step colorName cs st p i Hs Hp Hu) as (H1 & H2 & _).
  now apply IH.
Qed.

Lemma Iframe_unspaced (colorName : string) (cs : ComputedStyle) (names : list string) :
  one_family colorName names ->
  forall st i, settled colorName st i -> unspaced (Util.children st) ->
    unspaced (Util.children (Part000.forEach (Iframe.callback cs) st names i)).
Proof.
  induction 1 as [|p names Hp Hn IH]; intros st i Hs Hu; simpl; [exact Hu|].
  destruct (Part000_step colorName cs st p i Hs Hp Hu) as (_ & _ & H1 & H2).
  now apply IH.
Qed.

Lemma Util_step (colorName : string) (cs : ComputedStyle) (st : Util.state)
  (p : string) (i : nat) :
  settled colorName st i -> Util.extractColorName (Some p) = Some colorName ->
  unspaced (Util.children st) ->
  unspaced (Util.children (fst (Util.callback cs st p i)))
  /\ (Js.endsWith p "-hsl" = false -> snd (Util.callback cs st p i) = Normal tt ->
      settled colorName (fst (Util.callback cs st p i)) (S i))
  /\ (Js.endsWith p "-hsl" = true -> fst (Util.callback cs st p i) = st).
Proof.
  intros Hs Hp Hu. destruct (spaced_settled _ _ _ _ Hs Hp) as [E1 _].
  unfold Util.callback. rewrite E1.
  destruct (Js.endsWith p "-hsl"); [repeat split; [exact Hu | discriminate]|].
  destruct (Re.ends "-hue" (Some p)).
  - repeat split; [now apply unspaced_snoc | right; now exists p | discriminate].
  - destruct (Util.rgbaToHex8 _); repeat split;
      try (now apply unspaced_snoc); try discriminate.
    right. now exists p.
Qed.

(** After a first rendered name the loop of [util.js] stays settled, also
    across the names it skips. *)
Lemma Util_unspaced (colorName : string) (cs : ComputedStyle) (names : list string) :
  one_family colorName names ->
  forall st i,
    (exists q, Util.prevProperty st = Some q /\ Util.extractColorName (Some q) = Some colorName) ->
    unspaced (Util.children st) ->
    unspaced (Util.children (fst (Util.forEach (Util.callback cs) st names i))).
Proof.
  induction 1 as [|p names Hp Hn IH]; intros st i Hs Hu; simpl; [exact Hu|].
  destruct (Util_step colorName cs st p i (or_intror Hs) Hp Hu) as (H1 & H2 & H3).
  destruct (Util.callback cs st p i) as [st' [[]| e |]] eqn:E; simpl in *; try exact H1.
  apply IH; [|exact H1].
  destruct (Js.endsWith p "-hsl") eqn:Hhsl.
  - now rewrite (H3 eq_refl).
  - destruct (H2 eq_refl eq_refl) as [Hz | Hq]; [discriminate | exact Hq].
Qed.

(** When every name is of one family, no swatch gets a top margin: in the
    earlier revision, in the inline script, and in [util.js] provided the
    first name is rendered. *)
Theorem one_family_is_not_spaced (colorName : string) (cs : ComputedStyle)
  (names : list string) :
  one_family colorName names ->
  unspaced (Part000.buildSwatches cs [] names)
  /\ unspaced (Iframe.swatches cs [] names)
  /\ (forall first rest, names = first :: rest -> Js.endsWith first "-hsl" = false ->
      unspaced (fst (Util.buildSwatches cs [] names))).
Proof.
  intros H. split; [|split].
  - apply (Part000_unspaced colorName cs names H); [now left | constructor].
  - apply (Iframe_unspaced colorName cs names H); [now left | constructor].
  - intros first rest -> Hhsl. inversion H as [|? ? Hp Hn]; subst.
    unfold Util.buildSwatches. cbn [Util.forEach].
    destruct (Util_step colorName cs {| Util.children := []; Util.prevProperty := None |}
                first 0 (or_introl eq_refl) Hp (Forall_nil _)) as (H1 & H2 & _).
    destruct (Util.callback cs _ first 0) as [st' [[]| e |]] eqn:E; simpl in *; try exact H1.
    pose proof (Util_unspaced colorName cs rest Hn st' 1) as HU.
    destruct (Util.forEach (Util.callback cs) st' rest 1) as [st'' c]. simpl in *.
    apply HU; [|exact H1].
    destruct (H2 Hhsl eq_refl) as [Hz | Hq]; [discriminate | exact Hq].
Qed.

Lemma one_family_is_not_spaced_witness :
  unspaced (Part000.buildSwatches demo [] blues)
  /\ unspaced (fst (Util.buildSwatches demo [] blues)).
Proof.
  assert (H : one_family "blue" blues) by (repeat constructor).
  split.
  - exact (proj1 (one_family_is_not_spaced "blue" demo blues H)).
  - exact (proj2 (proj2 (one_family_is_not_spaced "blue" demo blues H))
             "--dh-color-blue-100" _ eq_refl eq_refl).
Defined.

(** In [util.js] a skipped first name leaves [prevProperty] at [null] while
    the index moves on: the first swatch is then spaced. *)
Lemma skipped_first_name_spaces_the_next :
  map marginTop (fst (Util.buildSwatches demo [] ["--dh-color-blue-100-hsl"; "--dh-color-blue-100"]))
  = [Some "40px"].
Proof. vm_compute. reflexivity. Qed.

(** ** Grouping in the generator *)

Lemma initColorGroups_snoc (getValue : string -> string) (names : list string) (p : string) :
  Util.initColorGroups getValue (names ++ [p])%list
  = Util.addProperty getValue (Util.initColorGroups getValue names) p.
Proof. unfold Util.initColorGroups. now rewrite fold_left_app. Qed.

Lemma addProperty_grouped (getValue : string -> string) (done : list string)
  (gs : Util.groups) (x : string) :
  grouped getValue done gs -> grouped getValue (done ++ [x])%list (Util.addProperty getValue gs x).
Proof.
  intros [Hsound Hcomplete].
  assert (Hskip : grouped getValue done gs ->
                  (forall colorName, Re.color_prop x = Some colorName -> ~ groupable colorName) ->
                  forall own', own' = Util.own gs ->
                  (forall colorName group p v,
                      In (colorName, group) own' -> In (p, v) group ->
                      In p (done ++ [x])%list /\ Re.color_prop p = Some colorName
                      /\ v = getValue p /\ groupable colorName)
                  /\ (forall colorName p,
                        In p (done ++ [x])%list -> Re.color_prop p = Some colorName ->
                        groupable colorName ->
                        exists group, Obj.get own' colorName = Some group
                                      /\ Obj.get group p = Some (getValue p))).
  { intros _ Hx own' ->. split.
    - intros F g p v HF Hp. destruct (Hsound F g p v HF Hp) as (H1 & H2 & H3 & H4).
      refine (conj _ (conj H2 (conj H3 H4))). apply in_app_iff. now left.
    - intros F p Hp Hc Hg. apply in_app_iff in Hp as [Hp | [<- | []]].
      + now apply Hcomplete.
      + exfalso. exact (Hx F Hc Hg). }
  unfold Util.addProperty.
  destruct (Re.color_prop x) as [c|] eqn:Ec.
  2:{ apply (Hskip (conj Hsound Hcomplete)); [discriminate | reflexivity]. }
  destruct (String.eqb c "__proto__") eqn:Eproto.
  { apply (Hskip (conj Hsound Hcomplete)); [|reflexivity].
    intros F [= <-] [Hp _]. congruence. }
  destruct (Util.inherited c) eqn:Einh.
  { apply (Hskip (conj Hsound Hcomplete)); [|reflexivity].
    intros F [= <-] [_ Hi]. congruence. }
  clear Hskip. split; cbn [Util.own].
  - intros F g p v HF Hp.
    apply in_set in HF as [E | HF].
    + injection E as -> ->. apply in_set in Hp as [E | Hp].
      * injection E as -> ->.
        refine (conj _ (conj Ec (conj eq_refl (conj Eproto Einh)))).
        apply in_app_iff. right. now left.
      * destruct (Obj.get (Util.own gs) c) as [group|] eqn:Eg; [|destruct Hp].
        apply get_in in Eg. destruct (Hsound c group p v Eg Hp) as (H1 & H2 & H3 & H4).
        refine (conj _ (conj H2 (conj H3 H4))). apply in_app_iff. now left.
    + destruct (Hsound F g p v HF Hp) as (H1 & H2 & H3 & H4).
      refine (conj _ (conj H2 (conj H3 H4))). apply in_app_iff. now left.
  - intros F p Hp Hc Hg.
    destruct (string_dec c F) as [-> | Hne].
    + rewrite get_set_same. eexists. split; [reflexivity|].
      destruct (string_dec x p) as [-> | Hxp]; [apply get_set_same|].
      rewrite get_set_other by exact Hxp.
      apply in_app_iff in Hp as [Hp | [E | []]]; [|contradiction].
      destruct (Hcomplete F p Hp Hc Hg) as (group & -> & Hget). exact Hget.
    + rewrite get_set_other by exact Hne.
      apply in_app_iff in Hp as [Hp | [<- | []]]; [now apply Hcomplete|].
      congruence.
Qed.

Lemma initColorGroups_grouped (getValue : string -> string) (names : list string) :
  grouped getValue names (Util.initColorGroups getValue names).
Proof.
  induction names as [|x names IH] using rev_ind.
  - split; [intros ? ? ? ? [] | intros ? ? []].
  - rewrite initColorGroups_snoc. now apply addProperty_grouped.
Qed.

(** A group of the generator is not empty, and holds exactly the names of
    the list that its pattern assigns to the family, each with its computed
    value. *)
Theorem generator_groups_by_family (getValue : string -> string)
  (cssPropertyNames : list string) (colorName : string) (group : Obj.t string) :
  Obj.get (Util.own (Util.initColorGroups getValue cssPropertyNames)) colorName = Some group ->
  group <> []
  /\ forall p v,
       In (p, v) group
       <-> In p cssPropertyNames /\ Re.color_prop p = Some colorName /\ v = getValue p.
Proof.
  intros Hget.
  destruct (initColorGroups_grouped getValue cssPropertyNames) as [Hsound Hcomplete].
  pose proof (get_in _ _ _ Hget) as Hin.
  pose proof (initColorGroups_inhabited getValue cssPropertyNames colorName group Hin) as Hne.
  split; [exact Hne|]. intros p v. split.
  - intros Hp. destruct (Hsound colorName group p v Hin Hp) as (H1 & H2 & H3 & _). auto.
  - intros (Hp & Hc & ->).
    destruct group as [|[p0 v0] rest]; [contradiction|].
    destruct (Hsound colorName _ p0 v0 Hin (or_introl eq_refl)) as (_ & _ & _ & Hg).
    destruct (Hcomplete colorName p Hp Hc Hg) as (group' & Hget' & Hmem).
    rewrite Hget in Hget'. injection Hget' as <-. now apply get_in.
Qed.

Lemma generator_groups_by_family_witness :
  [("--dh-color-blue-100", "#0000ff"); ("--dh-color-blue-200", "#0040ff");
   ("--dh-color-blue-300", "#4000ff")] <> []
  /\ forall p v,
       In (p, v) [("--dh-color-blue-100", "#0000ff"); ("--dh-color-blue-200", "#0040ff");
                  ("--dh-color-blue-300", "#4000ff")]
       <-> In p ("--dh-color-blue-hue" :: "--dh-color-gray-500" :: blues)
           /\ Re.color_prop p = Some "blue" /\ v = palette p.
Proof.
  apply (generator_groups_by_family palette
           ("--dh-color-blue-hue" :: "--dh-color-gray-500" :: blues) "blue").
  vm_compute. reflexivity.
Defined.

(** ** What the generator writes per shade *)

Lemma generated_colorGroup (getValue : string -> string) (names : list string)
  (colorName : string) (group : Obj.t string) :
  Obj.get (Util.own (Util.initColorGroups getValue names)) colorName = Some group ->
  Obj.get (Util.colorGroups (Util.generateHSLRanges getValue names)) colorName
  = Some (Util.colorGroup (Util.familyOf colorName group)).
Proof.
  intros Hget.
  destruct (families_own _ _ _ (initColorGroups_distinct getValue names) Hget) as [Hin Huniq].
  unfold Util.generateHSLRanges. cbn [Util.colorGroups].
  apply (fold_set_get fst (fun f => Util.colorGroup (Util.familyOf (fst f) (snd f)))).
  - intros f Hf Hk. now rewrite (Huniq f Hf Hk).
  - left. now exists (colorName, group).
Qed.

(** For every shade of a family the generator stores, under the name of
    the shade, the colour [hsl(var(NAME-hsl))]. *)
Theorem final_colors_wrap_offsets (getValue : string -> string)
  (cssPropertyNames : list string) (colorName : string) (group : Obj.t string)
  (property hex : string) :
  Obj.get (Util.own (Util.initColorGroups getValue cssPropertyNames)) colorName = Some group ->
  In (property, hex) (Obj.entries group) ->
  exists colorGroup,
    Obj.get (Util.colorGroups (Util.generateHSLRanges getValue cssPropertyNames)) colorName
    = Some colorGroup
    /\ Obj.get colorGroup property = Some ("hsl(var(" ++ property ++ "-hsl))").
Proof.
  intros Hget Hin. eexists. split; [exact (generated_colorGroup _ _ _ _ Hget)|].
  unfold Util.familyOf. cbn [Util.colorGroup]. rewrite shades_of_group.
  apply (fold_set_get fst (fun shade => "hsl(var(" ++ fst shade ++ "-hsl))")).
  - intros shade _ <-. reflexivity.
  - left. exists (property, Util.rgbToHsl (Util.hexToRgb hex)). split; [|reflexivity].
    apply in_map_iff. now exists (property, hex).
Qed.

Lemma final_colors_wrap_offsets_witness :
  exists colorGroup,
    Obj.get (Util.colorGroups (Util.generateHSLRanges palette blues)) "blue" = Some colorGroup
    /\ Obj.get colorGroup "--dh-color-blue-200"
       = Some ("hsl(var(" ++ "--dh-color-blue-200" ++ "-hsl))").
Proof.
  apply (final_colors_wrap_offsets palette blues "blue"
           [("--dh-color-blue-100", "#0000ff"); ("--dh-color-blue-200", "#0040ff");
            ("--dh-color-blue-300", "#4000ff")] "--dh-color-blue-200" "#0040ff").
  - vm_compute. reflexivity.
  - vm_compute. right. left. reflexivity.
Defined.

Lemma nan_tests :
  PrimFloat.leb 0 PrimFloat.nan = false
  /\ PrimFloat.eqb PrimFloat.nan 0 = false
  /\ Js.Number_toString (PrimFloat.abs PrimFloat.nan) = "NaN"
  /\ Js.Number_toString (Js.Math_round PrimFloat.nan) = "NaN".
Proof. repeat split; vm_compute; reflexivity. Qed.

Lemma total_poisoned (hslColors : list string) (bad : string) :
  In bad hslColors -> Util.hue_of bad = PrimFloat.nan ->
  forall acc,
    fold_left (fun total hsl => (total + Util.hue_of hsl)%float) hslColors acc = PrimFloat.nan.
Proof.
  assert (Hnan : forall l,
             fold_left (fun total hsl => (total + Util.hue_of hsl)%float) l PrimFloat.nan
             = PrimFloat.nan).
  { induction l as [|y l IH]; [reflexivity|]. simpl. now rewrite add_nan_l. }
  induction hslColors as [|x l IH]; intros Hin Hbad acc; [destruct Hin|].
  simpl. destruct Hin as [-> | Hin].
  - rewrite Hbad, add_nan_r. apply Hnan.
  - now apply IH.
Qed.

Lemma offsetDeclaration_poisoned (colorName hsl : string) :
  colorName <> "grayx" ->
  exists s l,
    Util.offsetDeclaration colorName PrimFloat.nan hsl
    = "calc(var(--dh-color-" ++ colorName ++ "-hue) - NaNdeg), " ++ s ++ "%, " ++ l ++ "%".
Proof.
  intros Hname. apply String.eqb_neq in Hname.
  unfold Util.offsetDeclaration. rewrite Hname, sub_nan_r.
  destruct nan_tests as (-> & -> & -> & _).
  eexists. eexists. reflexivity.
Qed.

(** One member whose HSL form the generator cannot read spoils its whole
    family, unless the family is [grayx]: the baseline is [NaNdeg] and every
    shade gets the offset [- NaNdeg]. *)
Theorem unparsed_member_poisons_family (getValue : string -> string)
  (cssPropertyNames : list string) (colorName : string) (group : Obj.t string)
  (bad value : string) :
  Obj.get (Util.own (Util.initColorGroups getValue cssPropertyNames)) colorName = Some group ->
  colorName <> "grayx" ->
  In (bad, value) (Obj.entries group) ->
  Re.hsl (Util.rgbToHsl (Util.hexToRgb value)) = None ->
  Obj.get (Util.baseHues (Util.generateHSLRanges getValue cssPropertyNames)) colorName
  = Some [("--dh-color-" ++ colorName ++ "-hue", "NaNdeg")]
  /\ forall property hex,
       In (property, hex) (Obj.entries group) ->
       exists hslGroup s l,
         Obj.get (Util.hslColorGroups (Util.generateHSLRanges getValue cssPropertyNames)) colorName
         = Some hslGroup
         /\ Obj.get hslGroup (property ++ "-hsl")
            = Some ("calc(var(--dh-color-" ++ colorName ++ "-hue) - NaNdeg), "
                    ++ s ++ "%, " ++ l ++ "%").
Proof.
  intros Hget Hname Hbad Hm.
  assert (Havg : Util.hueAvg colorName (Util.hslColorsOf group) = PrimFloat.nan).
  { unfold Util.hueAvg. pose proof Hname as Hn. apply String.eqb_neq in Hn. rewrite Hn.
    rewrite (total_poisoned _ (Util.rgbToHsl (Util.hexToRgb value))).
    - now rewrite div_nan_l.
    - unfold Util.hslColorsOf, Obj.values. rewrite map_map.
      apply in_map_iff. now exists (bad, value).
    - unfold Util.hue_of. now rewrite Hm. }
  destruct (generated_family _ _ _ _ Hget) as [Hb Hh]. split.
  - rewrite Hb. unfold Util.familyOf. cbn [Util.baseHue]. now rewrite Havg.
  - intros property hex Hin.
    destruct (offsetDeclaration_poisoned colorName (Util.rgbToHsl (Util.hexToRgb hex)) Hname)
      as (s & l & Ho).
    exists (Util.hslGroup (Util.familyOf colorName group)), s, l.
    split; [exact Hh|].
    rewrite (hslGroup_get colorName group property hex); [| |exact Hin].
    + now rewrite Havg, Ho.
    + apply (proj2 (initColorGroups_distinct getValue cssPropertyNames) colorName).
      now apply get_in.
Qed.

Lemma unparsed_member_poisons_family_witness :
  Obj.get (Util.baseHues (Util.generateHSLRanges palette grays)) "gray"
  = Some [("--dh-color-" ++ "gray" ++ "-hue", "NaNdeg")].
Proof.
  refine (proj1 (unparsed_member_poisons_family palette grays "gray"
                   [("--dh-color-gray-900", "#000000"); ("--dh-color-gray-500", "#808080")]
                   "--dh-color-gray-900" "#000000" _ _ _ _)).
  - vm_compute. reflexivity.
  - discriminate.
  - vm_compute. left. reflexivity.
  - vm_compute. reflexivity.
Defined.

(** ** The baseline, the offsets, [grayx] and the grays at concrete inputs *)

Lemma hue_baseline_is_rounded_average_witness :
  exists avg,
    Obj.get (Util.baseHues (Util.generateHSLRanges palette blues)) "blue"
    = Some [("--dh-color-" ++ "blue" ++ "-hue", Js.decimal avg ++ "deg")]
    /\ (2 * Z.of_nat (List.length [240; 225; 255]) * avg
        <= 2 * fold_right Z.add 0 [240; 225; 255] + Z.of_nat (List.length [240; 225; 255])
        < 2 * Z.of_nat (List.length [240; 225; 255]) * (avg + 1))%Z.
Proof.
  apply (hue_baseline_is_rounded_average palette blues "blue"
           [("--dh-color-blue-100", "#0000ff"); ("--dh-color-blue-200", "#0040ff");
            ("--dh-color-blue-300", "#4000ff")] [240; 225; 255]%Z).
  - vm_compute. reflexivity.
  - discriminate.
  - repeat constructor; try lia; eexists; eexists; vm_compute; reflexivity.
  - vm_compute. lia.
Defined.

Lemma hue_offset_encoding_witness :
  exists hslGroup,
    Obj.get (Util.hslColorGroups (Util.generateHSLRanges palette blues)) "blue" = Some hslGroup
    /\ Obj.get hslGroup ("--dh-color-blue-300" ++ "-hsl")
       = Some (offsetText "blue" (255 - rounded_average [240; 225; 255]%Z) "100" "50").
Proof.
  apply (hue_offset_encoding palette blues "blue"
           [("--dh-color-blue-100", "#0000ff"); ("--dh-color-blue-200", "#0040ff");
            ("--dh-color-blue-300", "#4000ff")] [240; 225; 255]%Z
           "--dh-color-blue-300" "#4000ff" 255).
  - vm_compute. reflexivity.
  - discriminate.
  - repeat constructor; try lia; eexists; eexists; vm_compute; reflexivity.
  - vm_compute. lia.
  - vm_compute. right. right. left. reflexivity.
  - lia.
  - vm_compute. reflexivity.
Defined.

Lemma grayx_is_pinned_witness :
  Obj.get (Util.baseHues (Util.generateHSLRanges palette ["--dh-color-grayx-500"])) "grayx"
  = Some [("--dh-color-grayx-hue", "0deg")].
Proof.
  refine (proj1 (grayx_is_pinned palette ["--dh-color-grayx-500"]
                   [("--dh-color-grayx-500", "#808080")] _)).
  vm_compute. reflexivity.
Defined.

Lemma rgbToHsl_gray_inside_witness :
  gray_ok Util.rgbToHsl 128 = true /\ gray_ok Part000.rgbToHsl 128 = true.
Proof. apply (rgbToHsl_gray_inside 128). lia. Defined.

(** ** The label of a hex colour *)

Lemma hex6_to_hsl (c1 c2 c3 c4 c5 c6 : ascii) :
  hex_digit c1 = true -> hex_digit c2 = true -> hex_digit c3 = true ->
  hex_digit c4 = true -> hex_digit c5 = true -> hex_digit c6 = true ->
  (exists rest, Util.rgbToHsl (Util.hexToRgb (hex6 c1 c2 c3 c4 c5 c6)) = "hsl(" ++ rest)
  /\ (exists rest, Part000.rgbToHsl (Util.hexToRgb (hex6 c1 c2 c3 c4 c5 c6)) = "hsl(" ++ rest).
Proof.
  intros H1 H2 H3 H4 H5 H6. unfold hex6.
  destruct (channel_value c1 c2 H1 H2) as (E1 & R1 & L1).
  destruct (channel_value c3 c4 H3 H4) as (E2 & R2 & L2).
  destruct (channel_value c5 c6 H5 H6) as (E3 & R3 & L3).
  destruct (channel_facts c1 c2 H1 H2) as (N1 & D1 & _).
  destruct (channel_facts c3 c4 H3 H4) as (N2 & D2 & _).
  destruct (channel_facts c5 c6 H5 H6) as (N3 & D3 & _).
  rewrite hexToRgb_six.
  unfold Util.rgbToHsl, Part000.rgbToHsl. rewrite rgb_of_channels by assumption.
  destruct (Util.hsl_of _ _ _) as [[h s] l]. split; eexists; reflexivity.
Qed.

(** A swatch whose computed value is a six-digit hex colour always carries
    the [span] with the derived HSL form (or, for a name ending in [-label],
    the fixed text), in both revisions. *)
Theorem hex_value_is_labelled_with_hsl (cs : ComputedStyle) (property : string)
  (c1 c2 c3 c4 c5 c6 : ascii) :
  hex_digit c1 = true -> hex_digit c2 = true -> hex_digit c3 = true ->
  hex_digit c4 = true -> hex_digit c5 = true -> hex_digit c6 = true ->
  getPropertyValue cs property = hex6 c1 c2 c3 c4 c5 c6 ->
  Util.label cs property
  = property ++ ": " ++ hex6 c1 c2 c3 c4 c5 c6
    ++ " <span title=" ++ Js.dquote ++ "HSL based on original HEX color" ++ Js.dquote ++ ">"
    ++ (if Re.ends "-label" (Some property) then "HSL derived from hex"
        else Util.rgbToHsl (Util.hexToRgb (hex6 c1 c2 c3 c4 c5 c6)))
    ++ "</span>"
  /\ Part000.label cs property
     = property ++ ": " ++ hex6 c1 c2 c3 c4 c5 c6
       ++ " <span title=" ++ Js.dquote ++ "HSL based on original HEX color" ++ Js.dquote ++ ">"
       ++ (if Re.ends "-label" (Some property) then "HSL derived from hex"
           else Part000.rgbToHsl (Util.hexToRgb (hex6 c1 c2 c3 c4 c5 c6)))
       ++ "</span>".
Proof.
  intros H1 H2 H3 H4 H5 H6 Hv.
  destruct (hex6_to_hsl c1 c2 c3 c4 c5 c6 H1 H2 H3 H4 H5 H6) as [[rest Hr] [rest' Hr']].
  unfold Util.label, Part000.label, Part000.hexToRgb. rewrite Hv.
  assert (E : String.eqb (hex6 c1 c2 c3 c4 c5 c6)
                (Util.rgbToHsl (Util.hexToRgb (hex6 c1 c2 c3 c4 c5 c6))) = false)
    by (rewrite Hr; reflexivity).
  assert (E' : String.eqb (hex6 c1 c2 c3 c4 c5 c6)
                 (Part000.rgbToHsl (Util.hexToRgb (hex6 c1 c2 c3 c4 c5 c6))) = false)
    by (rewrite Hr'; reflexivity).
  rewrite E, E'. split; reflexivity.
Qed.

Lemma hex_value_is_labelled_with_hsl_witness :
  Util.label demo "--dh-color-blue-100"
  = "--dh-color-blue-100" ++ ": " ++ hex6 "1" "2" "3" "4" "5" "6"
    ++ " <span title=" ++ Js.dquote ++ "HSL based on original HEX color" ++ Js.dquote ++ ">"
    ++ (if Re.ends "-label" (Some "--dh-color-blue-100") then "HSL derived from hex"
        else Util.rgbToHsl (Util.hexToRgb (hex6 "1" "2" "3" "4" "5" "6")))
    ++ "</span>".
Proof.
  refine (proj1 (hex_value_is_labelled_with_hsl demo "--dh-color-blue-100"
                   "1" "2" "3" "4" "5" "6" eq_refl eq_refl eq_refl eq_refl eq_refl eq_refl _)).
  reflexivity.
Defined.

(** ** The pages *)

Lemma rgbaToHex8_completion (arg : option Util.rgba) (msg : string) :
  Util.rgbaToHex8 arg <> Throw (Error msg).
Proof.
  unfold Util.rgbaToHex8. destruct arg as [c|]; [|discriminate].
  destruct (Js.Number_toString16 (Util.r c)); [|discriminate].
  destruct (Js.Number_toString16 (Util.g c)); [|discriminate].
  destruct (Js.Number_toString16 (Util.b c)); [|discriminate].
  destruct (Js.Number_toString16 _); discriminate.
Qed.

Lemma callback_completion (cs : ComputedStyle) (st : Util.state) (p : string) (i : nat)
  (msg : string) :
  snd (Util.callback cs st p i) <> Throw (Error msg).
Proof.
  unfold Util.callback. destruct (Js.endsWith p "-hsl"); [discriminate|].
  destruct (Re.ends "-hue" (Some p)); [discriminate|].
  pose proof (rgbaToHex8_completion
                (Util.parseRgba (resolveBackground cs ("var(" ++ Util.strip_hsl p ++ ")"))) msg) as H.
  destruct (Util.rgbaToHex8 _) as [hex8| e |]; [discriminate| |discriminate].
  simpl. congruence.
Qed.

Lemma forEach_completion (cs : ComputedStyle) (names : list string) (msg : string) :
  forall (st : Util.state) (i : nat),
    snd (Util.forEach (Util.callback cs) st names i) <> Throw (Error msg).
Proof.
  induction names as [|p names IH]; intros st i; simpl; [discriminate|].
  pose proof (callback_completion cs st p i msg) as H.
  destruct (Util.callback cs st p i) as [st' [[]| e |]]; simpl in *;
    [apply IH | exact H | discriminate].
Qed.

(** The only [Error] that the page of [palette.js] can end with is
    [No style sheet found]: no loaded sheet then matches the path, and the
    container is as it was, without a heading. *)
Theorem palette_error_leaves_container (search : string) (styleSheets : list CSSStyleSheet)
  (getValue : string -> string) (cs : ComputedStyle) (containerEl after : list node)
  (msg : string) :
  Palette.main search styleSheets getValue cs containerEl = (after, Throw (Error msg)) ->
  after = containerEl
  /\ msg = "No style sheet found"
  /\ forall sheet, In sheet styleSheets -> Util.hrefMatches (Util.getCssPath search) sheet = false.
Proof.
  unfold Palette.main, Util.loadCssProperties.
  destruct (Util.getCssPropertyNames styleSheets (Util.getCssPath search)) as [names| e |] eqn:E;
    cbn [fst].
  - unfold Util.buildSwatches.
    pose proof (forEach_completion cs names msg
                  {| Util.children := []; Util.prevProperty := None |} 0) as H.
    destruct (Util.forEach _ _ names 0) as [st c]. simpl in H. intros [= _ ->]. now destruct H.
  - intros [= <- ->]. split; [reflexivity|].
    unfold Util.getCssPropertyNames in E.
    destruct (find _ styleSheets) as [sheet|] eqn:F.
    + destruct (cssRules sheet) as [|rule rules]; [discriminate|].
      destruct (style rule); discriminate.
    + injection E as <-. split; [reflexivity|].
      intros sheet Hin. exact (find_none _ _ F sheet Hin).
  - discriminate.
Qed.

Lemma palette_error_leaves_container_witness :
  [H1 "before"] = [H1 "before"]
  /\ "No style sheet found" = "No style sheet found"
  /\ forall sheet, In sheet [] -> Util.hrefMatches (Util.getCssPath "?css=a/b.css") sheet = false.
Proof.
  apply (palette_error_leaves_container "?css=a/b.css" [] palette demo [H1 "before"]).
  reflexivity.
Defined.

(** When the page of [palette.js] completes, the names were found and the
    container has gained the heading of the path followed by one swatch for
    each name that does not end in [-hsl]. *)
Theorem palette_page_rendered (search : string) (styleSheets : list CSSStyleSheet)
  (getValue : string -> string) (cs : ComputedStyle) (containerEl after : list node) :
  Palette.main search styleSheets getValue cs containerEl = (after, Normal tt) ->
  exists cssPropertyNames divs,
    Util.getCssPropertyNames styleSheets (Util.getCssPath search) = Normal cssPropertyNames
    /\ after = (containerEl ++ heading (Util.getCssPath search) :: map Swatch divs)%list
    /\ labelled (fun p => InnerHTML (Util.label cs p)) (rendered cssPropertyNames) divs.
Proof.
  unfold Palette.main, Util.loadCssProperties.
  destruct (Util.getCssPropertyNames styleSheets (Util.getCssPath search)) as [names| e |] eqn:E;
    cbn [fst]; try discriminate.
  unfold Util.buildSwatches.
  destruct (Util.forEach _ _ names 0) as [st c] eqn:F. intros [= <- ->].
  destruct (forEach_normal _ _ _ _ _ F) as (divs & Hc & Hl). simpl in Hc.
  exists names, divs. split; [reflexivity|]. split; [|exact Hl].
  unfold Util.setHeading, heading. now rewrite Hc, <- app_assoc.
Qed.

Lemma palette_page_rendered_witness :
  exists cssPropertyNames divs,
    Util.getCssPropertyNames sheets (Util.getCssPath "") = Normal cssPropertyNames
    /\ fst (Palette.main "" sheets palette demo [])
       = ([] ++ heading (Util.getCssPath "") :: map Swatch divs)%list
    /\ labelled (fun p => InnerHTML (Util.label demo p)) (rendered cssPropertyNames) divs.
Proof.
  apply (palette_page_rendered "" sheets palette demo []).
  vm_compute. reflexivity.
Defined.

(** When the inline script throws, the container is as it was: either the
    query string had no path, or the lookup of the style sheet threw. *)
Theorem iframe_error_leaves_container (search : string) (styleSheets : list CSSStyleSheet)
  (cs : ComputedStyle) (containerEl after : list node) (e : error) :
  Iframe.script search styleSheets cs containerEl = (after, Throw e) ->
  after = containerEl
  /\ ((Re.css_param search = None /\ e = Error "No css path provided")
      \/ (exists path,
            Re.css_param search = Some path
            /\ Util.getCssPropertyNames styleSheets path = Throw e)).
Proof.
  unfold Iframe.script, Iframe.cssPath.
  destruct (Re.css_param search) as [path|].
  - destruct (Util.getCssPropertyNames styleSheets path) as [names| e' |] eqn:E;
      try discriminate.
    intros [= <- ->]. split; [reflexivity|]. right. now exists path.
  - intros [= <- <-]. split; [reflexivity|]. now left.
Qed.

Lemma iframe_error_leaves_container_witness :
  [H1 "before"] = [H1 "before"]
  /\ ((Re.css_param "?theme=dark" = None
       /\ Error "No css path provided" = Error "No css path provided")
      \/ (exists path,
            Re.css_param "?theme=dark" = Some path
            /\ Util.getCssPropertyNames sheets path = Throw (Error "No css path provided"))).
Proof.
  apply (iframe_error_leaves_container "?theme=dark" sheets demo [H1 "before"]).
  reflexivity.
Defined.

(** When the inline script completes, the query string gave a path, the
    names were found, and the container has gained the heading of the path
    followed by one swatch for every name. *)
Theorem iframe_page_rendered (search : string) (styleSheets : list CSSStyleSheet)
  (cs : ComputedStyle) (containerEl after : list node) :
  Iframe.script search styleSheets cs containerEl = (after, Normal tt) ->
  exists path cssProperties divs,
    Re.css_param search = Some path
    /\ Util.getCssPropertyNames styleSheets path = Normal cssProperties
    /\ after = (containerEl ++ heading path :: map Swatch divs)%list
    /\ labelled (fun p => InnerText (p ++ ": " ++ getPropertyValue cs p)) cssProperties divs.
Proof.
  unfold Iframe.script, Iframe.cssPath.
  destruct (Re.css_param search) as [path|]; [|discriminate].
  destruct (Util.getCssPropertyNames styleSheets path) as [names| e |] eqn:E;
    try discriminate.
  intros [= <-].
  destruct (Iframe_forEach_children cs names (start []) 0) as (divs & Hc & Hl).
  exists path, names, divs.
  split; [reflexivity|]. split; [exact E|]. split; [|exact Hl].
  unfold Iframe.swatches. fold (start []). rewrite Hc. reflexivity.
Qed.

Lemma iframe_page_rendered_witness :
  exists path cssProperties divs,
    Re.css_param "?css=themes/hex.css" = Some path
    /\ Util.getCssPropertyNames sheets path = Normal cssProperties
    /\ fst (Iframe.script "?css=themes/hex.css" sheets demo [])
       = ([] ++ heading path :: map Swatch divs)%list
    /\ labelled (fun p => InnerText (p ++ ": " ++ getPropertyValue demo p)) cssProperties divs.
Proof.
  apply (iframe_page_rendered "?css=themes/hex.css" sheets demo []).
  vm_compute. reflexivity.
Defined.
